(** * Pokemon catalog service (Express + mongoose): shallow embedding

    The request handlers of [src/index.js] are embedded as pure functions
    over an explicit store.  Request parameters arrive as raw strings
    ([req.query] is a finite map from names to strings), the store is the
    list of documents of the collection in natural order, and every
    JavaScript primitive the handlers call ([parseInt], [Number],
    [String.prototype.split], [isNaN], [Math.ceil], [||], template
    strings) is written out.

    Idealisations, stated once:
    - strings are sequences of bytes; white space and letter case are
      those of ASCII;
    - numbers are exact: a JavaScript number is [NaN], an infinity or a
      rational, without the rounding of IEEE doubles and without a signed
      zero ([-0] behaves as [0] in every test the handlers make);
    - identifiers and statistics stored in documents are integers;
    - a query parameter is absent or one string (no repeated parameter).

    The store is the external collaborator (mongoose over MongoDB).  Its
    part in the model is the list of documents and what [find],
    [countDocuments], [findOne], [save] and [findOneAndDelete] do with
    the filters and options the handlers pass; a call that rejects is a
    [Throw], which the handler's [catch] turns into its error status.

    The welcome route, the static assets and PUT /pokemon/:id are not
    embedded: no property below depends on them. *)

From Stdlib Require Import ZArith QArith Qround Ascii String.
From stdpp Require Import base option list gmap strings sorting.

Local Open Scope Z_scope.

(** ** Characters *)

Module Char.

Definition code (c : ascii) : N := N_of_ascii c.

(** Decimal digit value of a character, if it is one. *)
Definition digit (c : ascii) : option Z :=
  let n := code c in
  if ((48 <=? n) && (n <=? 57))%N then Some (Z.of_N n - 48) else None.

(** Digit value in radix 16 (both cases of the letters). *)
Definition hex_digit (c : ascii) : option Z :=
  let n := code c in
  if ((48 <=? n) && (n <=? 57))%N then Some (Z.of_N n - 48)
  else if ((97 <=? n) && (n <=? 102))%N then Some (Z.of_N n - 87)
  else if ((65 <=? n) && (n <=? 70))%N then Some (Z.of_N n - 55)
  else None.

(** Digit value in a radix up to 16. *)
Definition digit_in (radix : Z) (c : ascii) : option Z :=
  match hex_digit c with
  | Some d => if d <? radix then Some d else None
  | None => None
  end.

(** [StrWhiteSpaceChar] restricted to ASCII: TAB, LF, VT, FF, CR, SP. *)
Definition is_space (c : ascii) : bool :=
  let n := code c in
  ((9 <=? n) && (n <=? 13) || (n =? 32))%N.

Definition is_upper (c : ascii) : bool :=
  let n := code c in ((65 <=? n) && (n <=? 90))%N.

(** Case folding used by a case-insensitive match. *)
Definition lower (c : ascii) : ascii :=
  if is_upper c then ascii_of_N (code c + 32) else c.

Definition is_alnum (c : ascii) : bool :=
  let n := code c in
  ((48 <=? n) && (n <=? 57) || (65 <=? n) && (n <=? 90)
   || (97 <=? n) && (n <=? 122))%N.

Definition eqb_ci (a b : ascii) : bool := Ascii.eqb (lower a) (lower b).

Definition is_digit (c : ascii) : bool :=
  match digit_in 10 c with Some _ => true | None => false end.

(** The character of a decimal digit. *)
Definition of_digit (d : Z) : ascii := ascii_of_N (Z.to_N (48 + d)).

End Char.

(** ** JavaScript numbers and the conversions the handlers use *)

Inductive number :=
| NaN
| Infinity (negative : bool)
| Finite (q : Q).

Definition isNaN (n : number) : bool :=
  match n with NaN => true | _ => false end.

Definition of_Z (z : Z) : number := Finite (inject_Z z).

(** The integers a JavaScript number holds exactly and tells from their
    neighbours ([Number.isSafeInteger]).  On them the exact arithmetic of
    this model is the arithmetic of the code; past them the code rounds
    ([2^53 + 1] is [2^53]), so what is stated of an integer read from a
    string, written to one or incremented is stated of safe integers. *)
Definition safe (n : Z) : Prop := - 2 ^ 53 < n < 2 ^ 53.

(** Loose numeric equality, as the store compares a requested number with a
    stored integer. *)
Definition num_eqb (n : number) (z : Z) : bool :=
  match n with
  | Finite q => Qeq_bool q (inject_Z z)
  | _ => false
  end.

(** [z >= n] and [z <= n] for a stored integer [z] and a bound [n]. *)
Definition num_geb (z : Z) (n : number) : bool :=
  match n with
  | Finite q => Qle_bool q (inject_Z z)
  | Infinity neg => neg
  | NaN => false
  end.

Definition num_leb (z : Z) (n : number) : bool :=
  match n with
  | Finite q => Qle_bool (inject_Z z) q
  | Infinity neg => negb neg
  | NaN => false
  end.

Module Str.

Fixpoint all (f : ascii -> bool) (s : string) : bool :=
  match s with
  | String c s' => f c && all f s'
  | EmptyString => true
  end.

Fixpoint drop_while (f : ascii -> bool) (s : string) : string :=
  match s with
  | String c s' => if f c then drop_while f s' else s
  | EmptyString => s
  end.

Fixpoint rev_onto (s acc : string) : string :=
  match s with
  | String c s' => rev_onto s' (String c acc)
  | EmptyString => acc
  end.

Definition rev (s : string) : string := rev_onto s EmptyString.

(** [String.prototype.trim] on ASCII white space. *)
Definition trim (s : string) : string :=
  rev (drop_while Char.is_space (rev (drop_while Char.is_space s))).

(** Value of the longest prefix of radix-[radix] digits, how many digits
    were read, and the rest of the string. *)
Fixpoint read_digits (radix : Z) (acc : Z) (count : nat) (s : string)
  : Z * nat * string :=
  match s with
  | String c s' =>
      match Char.digit_in radix c with
      | Some d => read_digits radix (acc * radix + d) (S count) s'
      | None => (acc, count, s)
      end
  | EmptyString => (acc, count, s)
  end.

(** [s.split(sep)] for a one-character separator: never an empty array. *)
Fixpoint split_on (sep : ascii) (cur : string) (s : string) : list string :=
  match s with
  | EmptyString => [rev cur]
  | String c s' =>
      if Ascii.eqb c sep then rev cur :: split_on sep EmptyString s'
      else split_on sep (String c cur) s'
  end.

Definition split (sep : ascii) (s : string) : list string :=
  split_on sep EmptyString s.

Definition starts_with_ci (a b : ascii) (s : string) : option string :=
  match s with
  | String x (String y s') =>
      if Ascii.eqb x a && Char.eqb_ci y b then Some s' else None
  | _ => None
  end.

End Str.

(** An optional sign in front of a numeral. *)
Definition read_sign (s : string) : Z * string :=
  match s with
  | String "-" s' => (-1, s')
  | String "+" s' => (1, s')
  | _ => (1, s)
  end.

(** [parseInt(v)] with no radix argument.  [None] is the result [NaN];
    an absent parameter is [undefined], whose string form has no digit. *)
Definition parseInt (v : option string) : option Z :=
  match v with
  | None => None
  | Some s =>
      let s := Str.drop_while Char.is_space s in
      let '(sign, s) := read_sign s in
      let '(radix, s) :=
        match Str.starts_with_ci "0" "x" s with
        | Some s' => (16, s')
        | None => (10, s)
        end in
      match Str.read_digits radix 0 0 s with
      | (_, O, _) => None
      | (n, _, _) => Some (sign * n)
      end
  end.

(** [x || d] on the result of [parseInt]: [NaN] and [0] are falsy. *)
Definition or_default (x : option Z) (d : Z) : Z :=
  match x with
  | Some n => if n =? 0 then d else n
  | None => d
  end.

(** The value [m * 10^e] of a decimal literal. *)
Definition scale10 (m e : Z) : Q :=
  if 0 <=? e then inject_Z (m * 10 ^ e)
  else Qred (Qmake m (Z.to_pos (10 ^ (- e)))).

(** [ExponentPart] of a decimal literal: nothing, or [e]/[E], an optional
    sign and at least one digit, up to the end of the string. *)
Definition read_exponent (s : string) : option Z :=
  match s with
  | EmptyString => Some 0
  | String c s' =>
      if Char.eqb_ci c "e" then
        let '(sign, s'') := read_sign s' in
        match Str.read_digits 10 0 0 s'' with
        | (_, O, _) => None
        | (n, _, EmptyString) => Some (sign * n)
        | _ => None
        end
      else None
  end.

(** [StrUnsignedDecimalLiteral]: [Infinity], or digits with an optional
    fraction and exponent, at least one digit before the exponent. *)
Definition read_unsigned (s : string) : number :=
  if String.eqb s "Infinity" then Infinity false
  else
    let '(ip, ni, rest) := Str.read_digits 10 0 0 s in
    let '(m, nf, rest) :=
      match rest with
      | String "." r =>
          let '(m, nf, r') := Str.read_digits 10 ip 0 r in (m, nf, r')
      | _ => (ip, O, rest)
      end in
    match (ni + nf)%nat with
    | O => NaN
    | _ =>
        match read_exponent rest with
        | Some e => Finite (scale10 m (e - Z.of_nat nf))
        | None => NaN
        end
    end.

Definition negate (n : number) : number :=
  match n with
  | NaN => NaN
  | Infinity neg => Infinity (negb neg)
  | Finite q => Finite (Qopp q)
  end.

(** A literal made of a radix prefix and digits only ([0x1f], [0b101]). *)
Definition read_radix (radix : Z) (s : string) : number :=
  match Str.read_digits radix 0 0 s with
  | (_, O, _) => NaN
  | (n, _, EmptyString) => of_Z n
  | _ => NaN
  end.

(** An unsigned literal: hexadecimal, octal, binary or decimal. *)
Definition read_numeric (s : string) : number :=
  match Str.starts_with_ci "0" "x" s with
  | Some s' => read_radix 16 s'
  | None =>
      match Str.starts_with_ci "0" "o" s with
      | Some s' => read_radix 8 s'
      | None =>
          match Str.starts_with_ci "0" "b" s with
          | Some s' => read_radix 2 s'
          | None => read_unsigned s
          end
      end
  end.

(** [Number(s)] on a string (the abstract operation StringToNumber): the
    empty string is 0, a sign is allowed on a decimal literal only. *)
Definition Number (s : string) : number :=
  match Str.trim s with
  | EmptyString => of_Z 0
  | String c s' =>
      if Ascii.eqb c "-" then negate (read_unsigned s')
      else if Ascii.eqb c "+" then read_unsigned s'
      else read_numeric (String c s')
  end.

(** Decimal digits of a natural number, most significant first. *)
Fixpoint digits_onto (fuel : nat) (n : Z) (acc : string) : string :=
  let acc' := String (Char.of_digit (n mod 10)) acc in
  match fuel with
  | O => acc'
  | S fuel' => if n <? 10 then acc' else digits_onto fuel' (n / 10) acc'
  end.

(** The digits of a natural number; [log2 m] turns are enough. *)
Definition numeral (m : Z) : string :=
  digits_onto (Z.to_nat (Z.log2 m)) m EmptyString.

(** [String(n)] for an integer [n], as a template string renders it. *)
Definition to_string (n : Z) : string :=
  if n <? 0 then String "-" (numeral (Z.abs n)) else numeral (Z.abs n).

(** [a / b] on two integers: a division by zero gives an infinity or
    [NaN], never an error. *)
Definition js_div (a b : Z) : number :=
  if b =? 0 then
    (if a =? 0 then NaN else Infinity (a <? 0))
  else Finite (Qred (Qmake (a * Z.sgn b) (Z.to_pos (Z.abs b)))).

(** [Math.ceil] leaves [NaN] and the infinities as they are. *)
Definition Math_ceil (n : number) : number :=
  match n with
  | Finite q => of_Z (Qceiling q)
  | _ => n
  end.


(** ** Documents

    Modelled from the spec: [src/schema/pokemon.js], the mongoose schema of
    the collection, is missing.  The spec's data model gives a record an
    integer [id], a [name] with four required strings, a [type] sequence
    of strings, a [base] with six required numbers and an [image] string. *)

Record Name := {
  english : string;
  french : string;
  japanese : string;
  chinese : string
}.

Record Base := {
  HP : Z;
  Attack : Z;
  Defense : Z;
  SpecialAttack : Z;
  SpecialDefense : Z;
  Speed : Z
}.

Record Pokemon := {
  id : Z;
  name : Name;
  type : list string;
  base : Base;
  image : string
}.

(** The collection, in natural order. *)
Definition Store := list Pokemon.

(** What a dotted path of a filter reads in a document. *)
Inductive value :=
| VNumber (z : Z)
| VString (s : string)
| VStrings (l : list string).

Definition statFields : list string :=
  ["HP"; "Attack"; "Defense"; "SpecialAttack"; "SpecialDefense"; "Speed"].

Definition stat (field : string) (b : Base) : option Z :=
  if String.eqb field "HP" then Some (HP b)
  else if String.eqb field "Attack" then Some (Attack b)
  else if String.eqb field "Defense" then Some (Defense b)
  else if String.eqb field "SpecialAttack" then Some (SpecialAttack b)
  else if String.eqb field "SpecialDefense" then Some (SpecialDefense b)
  else if String.eqb field "Speed" then Some (Speed b)
  else None.

Definition lang (field : string) (n : Name) : option string :=
  if String.eqb field "english" then Some (english n)
  else if String.eqb field "french" then Some (french n)
  else if String.eqb field "japanese" then Some (japanese n)
  else if String.eqb field "chinese" then Some (chinese n)
  else None.

Definition strip_prefix (pre s : string) : option string :=
  if String.prefix pre s
  then Some (String.substring (String.length pre)
               (String.length s - String.length pre) s)
  else None.

Definition path (key : string) (p : Pokemon) : option value :=
  if String.eqb key "id" then Some (VNumber (id p))
  else if String.eqb key "type" then Some (VStrings (type p))
  else if String.eqb key "image" then Some (VString (image p))
  else match strip_prefix "base." key with
       | Some f => VNumber <$> stat f (base p)
       | None =>
           match strip_prefix "name." key with
           | Some f => VString <$> lang f (name p)
           | None => None
           end
       end.

(** ** The pattern engine behind [$regex]

    The store hands [$regex] patterns to a Perl-compatible engine.  The
    model covers the patterns made of literal characters, [.], an escaped
    punctuation character and the postfix quantifiers [*], [+] and [?];
    any other construct is reported as [Unmodelled], about which nothing
    is stated. *)

Module Regex.

Inductive atom := Lit (c : ascii) | Any.
Inductive quant := One | Opt | Star | Plus.

Inductive compiled :=
| Pattern (items : list (atom * quant))
| Malformed
| Unmodelled.

Definition quant_of (c : ascii) : option quant :=
  if Ascii.eqb c "*" then Some Star
  else if Ascii.eqb c "+" then Some Plus
  else if Ascii.eqb c "?" then Some Opt
  else None.

(** Characters with a special meaning outside a character class. *)
Definition is_meta (c : ascii) : bool :=
  existsb (Ascii.eqb c)
    ["\"; "^"; "$"; "."; "|"; "?"; "*"; "+"; "("; ")"; "["; "]"; "{"; "}"]%char.

(** [acc] holds the items read so far, last first. *)
Fixpoint parse (s : string) (acc : list (atom * quant)) : compiled :=
  match s with
  | EmptyString => Pattern (rev acc)
  | String c s' =>
      if Ascii.eqb c "\" then
        match s' with
        | EmptyString => Malformed
        | String d s'' =>
            if Char.is_alnum d then Unmodelled
            else parse s'' ((Lit d, One) :: acc)
        end
      else if Ascii.eqb c "." then parse s' ((Any, One) :: acc)
      else match quant_of c with
           | Some q =>
               match acc with
               | [] => Malformed
               | (a, One) :: acc' => parse s' ((a, q) :: acc')
               | _ => Unmodelled
               end
           | None =>
               if is_meta c then Unmodelled
               else parse s' ((Lit c, One) :: acc)
           end
  end.

Definition compile (pattern : string) : compiled := parse pattern [].

(** One character against one atom; [ci] is the option [i].  A dot
    matches every character but a line feed. *)
Definition atom_ok (ci : bool) (a : atom) (d : ascii) : bool :=
  match a with
  | Lit c => if ci then Char.eqb_ci c d else Ascii.eqb c d
  | Any => negb (Ascii.eqb d "010")
  end.

(** Does some prefix of [s] match the items? *)
Fixpoint match_here (ci : bool) (p : list (atom * quant)) (s : string)
  : bool :=
  match p with
  | [] => true
  | (a, q) :: p' =>
      let step (k : string -> bool) (s : string) : bool :=
        match s with
        | String d s' => atom_ok ci a d && k s'
        | EmptyString => false
        end in
      let star :=
        fix star (s : string) : bool :=
          match_here ci p' s
          || match s with
             | String d s' => atom_ok ci a d && star s'
             | EmptyString => false
             end in
      match q with
      | One => step (match_here ci p') s
      | Opt => match_here ci p' s || step (match_here ci p') s
      | Star => star s
      | Plus => step star s
      end
  end.

(** Unanchored search: a match may start at any position. *)
Fixpoint search (ci : bool) (p : list (atom * quant)) (s : string) : bool :=
  match_here ci p s
  || match s with
     | String _ s' => search ci p s'
     | EmptyString => false
     end.

End Regex.


(** ** Results of store calls

    A store call (an awaited promise) resolves, rejects with an error
    message, or lies outside what the model describes (a pattern the
    engine model does not cover). *)

Inductive result (A : Type) :=
| Ok (a : A)
| Throw (message : string)
| OutsideModel.
Arguments Ok {A} a.
Arguments Throw {A} message.
Arguments OutsideModel {A}.

#[global] Instance result_ret : MRet result := fun A a => Ok a.
#[global] Instance result_bind : MBind result := fun A B f m =>
  match m with
  | Ok a => f a
  | Throw e => Throw e
  | OutsideModel => OutsideModel
  end.

(** ** Filters

    The filter objects the handlers build, and how the store reads them. *)

Inductive clause :=
| Is (v : string)                    (* { id: req.params.id } *)
| InStrings (vs : list string)       (* { $in: types } *)
| InNumbers (ns : list number)       (* { $in: idList } *)
| Range (gte lte : option number)    (* {}, then $gte and $lte as assigned *)
| Matches (regex options : string).  (* { $regex: name, $options: 'i' } *)

Inductive selector :=
| Conj (fields : gmap string clause)        (* { key: clause, ... } *)
| Disj (alts : list (string * clause)).     (* { $or: [{ key: clause }, ...] } *)

Definition cast_error : string := "Cast to Number failed".
Definition regex_error : string := "Regular expression is invalid".

Definition bound_ok (b : option number) : bool :=
  match b with Some n => negb (isNaN n) | None => true end.

(** Casting a clause before the query is sent: a string compared with a
    number is converted with [Number], except the empty string, which is
    cast to [null] and equals no stored id; a [NaN] where the schema has a
    number is refused; a pattern is compiled.  The outcome is the test the
    clause makes on the value found at its path. *)
Definition cast_clause (c : clause) : result (value -> bool) :=
  match c with
  | Is v =>
      if String.eqb v "" then Ok (fun _ => false)
      else
        match Number v with
        | NaN => Throw cast_error
        | n => Ok (fun x => match x with VNumber z => num_eqb n z | _ => false end)
        end
  | InStrings vs =>
      Ok (fun x =>
            match x with
            | VStrings l => existsb (fun v => existsb (String.eqb v) l) vs
            | VString s => existsb (String.eqb s) vs
            | VNumber _ => false
            end)
  | InNumbers ns =>
      if forallb (fun n => negb (isNaN n)) ns
      then Ok (fun x =>
                 match x with
                 | VNumber z => existsb (fun n => num_eqb n z) ns
                 | _ => false
                 end)
      else Throw cast_error
  | Range gte lte =>
      if bound_ok gte && bound_ok lte
      then Ok (fun x =>
                 match x with
                 | VNumber z =>
                     from_option (num_geb z) true gte
                     && from_option (num_leb z) true lte
                 | _ => false
                 end)
      else Throw cast_error
  | Matches regex options =>
      if String.eqb options "i" then
        match Regex.compile regex with
        | Regex.Pattern p =>
            Ok (fun x =>
                  match x with
                  | VString s => Regex.search true p s
                  | _ => false
                  end)
        | Regex.Malformed => Throw regex_error
        | Regex.Unmodelled => OutsideModel
        end
      else OutsideModel
  end.

Definition cast_field (kc : string * clause) : result (Pokemon -> bool) :=
  test ← cast_clause kc.2;
  mret (fun p => from_option test false (path kc.1 p)).

Fixpoint cast_fields (l : list (string * clause))
  : result (list (Pokemon -> bool)) :=
  match l with
  | [] => mret []
  | kc :: l' =>
      t ← cast_field kc;
      ts ← cast_fields l';
      mret (t :: ts)
  end.

Definition cast (f : selector) : result (Pokemon -> bool) :=
  match f with
  | Conj fields =>
      ts ← cast_fields (map_to_list fields);
      mret (fun p => forallb (fun t => t p) ts)
  | Disj alts =>
      ts ← cast_fields alts;
      mret (fun p => existsb (fun t => t p) ts)
  end.

(** ** Queries: [find(filter).sort(..).skip(..).limit(..)] *)

Module Query.

Inductive order := Asc | Desc.      (* { id: 1 } and { id: -1 } *)

Record t := mk {
  conditions : selector;
  order_by : option order;
  offset : option Z;
  at_most : option Z
}.

Definition find (f : selector) : t := mk f None None None.
Definition sort (o : order) (q : t) : t :=
  mk (conditions q) (Some o) (offset q) (at_most q).
Definition skip (n : Z) (q : t) : t :=
  mk (conditions q) (order_by q) (Some n) (at_most q).
Definition limit (n : Z) (q : t) : t :=
  mk (conditions q) (order_by q) (offset q) (Some n).

Definition by_id (o : order) (a b : Pokemon) : Prop :=
  match o with Asc => id a <= id b | Desc => id b <= id a end.

#[global] Instance by_id_dec o a b : Decision (by_id o a b).
Proof. destruct o; simpl; apply _. Defined.

Definition skip_error : string := "skip value must be non-negative".

(** Running a query.  The store refuses a negative skip; a limit of 0
    is no limit and a negative limit is read as its absolute value. *)
Definition exec (db : Store) (q : t) : result (list Pokemon) :=
  test ← cast (conditions q);
  let found := List.filter test db in
  let sorted :=
    match order_by q with
    | Some o => merge_sort (by_id o) found
    | None => found
    end in
  skipped ←
    match offset q with
    | Some n => if n <? 0 then Throw skip_error
                else Ok (drop (Z.to_nat n) sorted)
    | None => Ok sorted
    end;
  mret match at_most q with
       | Some n => if n =? 0 then skipped
                   else take (Z.to_nat (Z.abs n)) skipped
       | None => skipped
       end.

(** [findOne]: the first document of the query's result. *)
Definition one (db : Store) (q : t) : result (option Pokemon) :=
  l ← exec db q; mret (head l).

End Query.

Definition countDocuments (db : Store) (f : selector) : result Z :=
  test ← cast f; mret (Z.of_nat (length (List.filter test db))).

(** ** Responses *)

Module Envelope.
Record t := mk {
  pokemons : list Pokemon;
  page : Z;
  limit : Z;
  total : Z;
  totalPages : number
}.
End Envelope.

(** The projection [select('id name.english type image')]. *)
Module Summary.
Record t := mk {
  id : Z;
  english : string;
  type : list string;
  image : string
}.
End Summary.

Inductive Body :=
| Page (e : Envelope.t)
| Docs (l : list Pokemon)
| Summaries (l : list Summary.t)
| Doc (p : Pokemon)
| Deleted (message : string) (pokemon : Pokemon)
| Error (error : string).

(** What a handler sends: a status and a JSON body.  [NoModel] stands for
    a request the model does not describe. *)
Inductive reply :=
| Reply (status : Z) (body : Body)
| NoModel.

(** [try { .. } catch (error) { res.status(code).json({ error: error.message }) }] *)
Definition try_catch (code : Z) (r : result reply) : reply :=
  match r with
  | Ok x => x
  | Throw message => Reply code (Error message)
  | OutsideModel => NoModel
  end.

Definition status_of (r : reply) : option Z :=
  match r with Reply s _ => Some s | NoModel => None end.

(** A request's query string: parameter names to raw strings. *)
Abbreviation query := (gmap string string).

(** JavaScript truthiness of an optional string: absent and empty are falsy. *)
Definition truthy (v : option string) : bool :=
  match v with
  | Some (String _ _) => true
  | _ => false
  end.

(** [v || d] on an optional string. *)
Definition or_else (v : option string) (d : string) : string :=
  if truthy v then default "" v else d.

(** ** Pagination parameters (lines 22-24 and 72-74) *)

Definition page (q : query) : Z := or_default (parseInt (q !! "page")) 1.
Definition limit (q : query) : Z := or_default (parseInt (q !! "limit")) 20.
Definition skip (q : query) : Z := (page q - 1) * limit q.

(** [totalPages: Math.ceil(total / limit)] *)
Definition totalPages (total limit : Z) : number := Math_ceil (js_div total limit).

(** ** GET /pokemon *)

Definition get_pokemon (db : Store) (q : query) : reply :=
  try_catch 500 (
    let page := page q in
    let limit := limit q in
    let skip := skip q in
    total ← countDocuments db (Conj ∅);
    pokemons ← Query.exec db
      (Query.limit limit (Query.skip skip (Query.sort Query.Asc (Query.find (Conj ∅)))));
    mret (Reply 200 (Page (Envelope.mk pokemons page limit total
                             (totalPages total limit))))).

(** ** GET /pokemon/search *)

Definition quoted (s : string) : string :=
  String (ascii_of_N 34) (s +:+ String (ascii_of_N 34) EmptyString).

Definition required (param : string) : string :=
  "Le paramètre " +:+ quoted param +:+ " est requis".

Definition name_error : string := required "name".

Definition search_filter (name : string) : selector :=
  Disj [ ("name.english", Matches name "i");
         ("name.french", Matches name "i");
         ("name.japanese", Matches name "i");
         ("name.chinese", Matches name "i") ].

Definition get_search (db : Store) (q : query) : reply :=
  try_catch 500 (
    let name := q !! "name" in
    if negb (truthy name) then mret (Reply 400 (Error name_error))
    else
      pokemons ← Query.exec db (Query.find (search_filter (default "" name)));
      mret (Reply 200 (Docs pokemons))).

(** ** GET /pokemon/filter *)

(** One turn of the loop over [statFields]. *)
Definition add_stat (q : query) (filter : gmap string clause) (stat : string)
  : gmap string clause :=
  let minVal := q !! ("min" +:+ stat) in
  let maxVal := q !! ("max" +:+ stat) in
  if bool_decide (minVal ≠ None) || bool_decide (maxVal ≠ None)
  then <[ "base." +:+ stat := Range (Number <$> minVal) (Number <$> maxVal) ]> filter
  else filter.

Definition build_filter (q : query) : gmap string clause :=
  let filter : gmap string clause :=
    if truthy (q !! "types")
    then {[ "type" := InStrings (Str.split "," (default "" (q !! "types"))) ]}
    else ∅ in
  fold_left (add_stat q) statFields filter.

Definition get_filter (db : Store) (q : query) : reply :=
  try_catch 500 (
    let page := page q in
    let limit := limit q in
    let skip := skip q in
    let filter := Conj (build_filter q) in
    total ← countDocuments db filter;
    pokemons ← Query.exec db
      (Query.limit limit (Query.skip skip (Query.sort Query.Asc (Query.find filter))));
    mret (Reply 200 (Page (Envelope.mk pokemons page limit total
                             (totalPages total limit))))).

(** ** GET /pokemon/by-ids *)

Definition ids_error : string := required "ids".

(** [ids.split(',').map(Number).filter(n => !isNaN(n))] *)
Definition idList (ids : string) : list number :=
  List.filter (fun n => negb (isNaN n)) (map Number (Str.split "," ids)).

Definition get_by_ids (db : Store) (q : query) : reply :=
  try_catch 500 (
    let ids := q !! "ids" in
    if negb (truthy ids) then mret (Reply 400 (Error ids_error))
    else
      pokemons ← Query.exec db
        (Query.sort Query.Asc
           (Query.find (Conj {[ "id" := InNumbers (idList (default "" ids)) ]})));
      mret (Reply 200 (Docs pokemons))).

(** ** GET /pokemon/list-all *)

Definition summary (p : Pokemon) : Summary.t :=
  Summary.mk (id p) (english (name p)) (type p) (image p).

Definition get_list_all (db : Store) : reply :=
  try_catch 500 (
    pokemons ← Query.exec db (Query.sort Query.Asc (Query.find (Conj ∅)));
    mret (Reply 200 (Summaries (map summary pokemons)))).

(** ** GET /pokemon/:id *)

Definition not_found : string := "Pokemon non trouvé".

Definition get_by_id (db : Store) (param : string) : reply :=
  try_catch 500 (
    poke ← Query.one db (Query.find (Conj {[ "id" := Is param ]}));
    mret match poke with
         | Some p => Reply 200 (Doc p)
         | None => Reply 404 (Error not_found)
         end).

(** ** POST /pokemon *)

(** The JSON body of a creation request: every field may be missing. *)
Module Payload.
Record Name := {
  english : option string;
  french : option string;
  japanese : option string;
  chinese : option string
}.
Record Base := {
  HP : option Z;
  Attack : option Z;
  Defense : option Z;
  SpecialAttack : option Z;
  SpecialDefense : option Z;
  Speed : option Z
}.
Record t := {
  name : option Name;
  type : option (list string);
  base : option Base;
  image : option string
}.
End Payload.

(** The JSON form of a complete name and of a complete base. *)
Definition name_json (n : Name) : Payload.Name :=
  {| Payload.english := Some (english n); Payload.french := Some (french n);
     Payload.japanese := Some (japanese n); Payload.chinese := Some (chinese n) |}.

Definition base_json (b : Base) : Payload.Base :=
  {| Payload.HP := Some (HP b); Payload.Attack := Some (Attack b);
     Payload.Defense := Some (Defense b);
     Payload.SpecialAttack := Some (SpecialAttack b);
     Payload.SpecialDefense := Some (SpecialDefense b);
     Payload.Speed := Some (Speed b) |}.

(** A valid creation payload: it carries a name, a type and a base. *)
Definition carries (body : Payload.t) (n : Name) (ty : list string) (b : Base)
  : Prop :=
  Payload.name body = Some (name_json n)
  /\ Payload.type body = Some ty
  /\ Payload.base body = Some (base_json b).

(** [new Pokemon({ id, name, type, base, image })]: a document not yet
    validated. *)
Module Draft.
Record t := mk {
  id : Z;
  name : option Payload.Name;
  type : option (list string);
  base : option Payload.Base;
  image : string
}.
End Draft.

Definition validation_error : string := "Pokemon validation failed".

(** Modelled from the spec: the validation of [src/schema/pokemon.js],
    which is missing.  A document is valid when the four name strings,
    the type sequence and the six base numbers are present. *)
Definition validate (d : Draft.t) : option Pokemon :=
  n ← Draft.name d;
  en ← Payload.english n;
  fr ← Payload.french n;
  ja ← Payload.japanese n;
  zh ← Payload.chinese n;
  ty ← Draft.type d;
  b ← Draft.base d;
  hp ← Payload.HP b;
  att ← Payload.Attack b;
  def ← Payload.Defense b;
  spa ← Payload.SpecialAttack b;
  spd ← Payload.SpecialDefense b;
  spe ← Payload.Speed b;
  Some {| id := Draft.id d;
          name := {| english := en; french := fr; japanese := ja; chinese := zh |};
          type := ty;
          base := {| HP := hp; Attack := att; Defense := def;
                     SpecialAttack := spa; SpecialDefense := spd; Speed := spe |};
          image := Draft.image d |}.

(** [doc.save()]: validate, then insert at the end of the collection. *)
Definition save (db : Store) (d : Draft.t) : result (Store * Pokemon) :=
  match validate d with
  | Some p => Ok (db ++ [p], p)
  | None => Throw validation_error
  end.

(** [`http://localhost:3000/assets/pokemons/${newId}.png`] *)
Definition default_image (newId : Z) : string :=
  "http://localhost:3000/assets/pokemons/" +:+ to_string newId +:+ ".png".

(** Lines 162-163: the identifier of the next document. *)
Definition newId (db : Store) : result Z :=
  lastPokemon ← Query.one db (Query.sort Query.Desc (Query.find (Conj ∅)));
  mret match lastPokemon with
       | Some p => id p + 1
       | None => 1
       end.

Definition post_pokemon (db : Store) (body : Payload.t) : Store * reply :=
  let r :=
    newId ← newId db;
    let newPokemon :=
      Draft.mk newId (Payload.name body) (Payload.type body) (Payload.base body)
        (or_else (Payload.image body) (default_image newId)) in
    saved ← save db newPokemon;
    mret (saved.1, Reply 201 (Doc saved.2)) in
  match r with
  | Ok out => out
  | Throw message => (db, Reply 400 (Error message))
  | OutsideModel => (db, NoModel)
  end.

(** ** DELETE /pokemon/:id *)

(** The first document passing [test], and the collection without it. *)
Fixpoint remove_first (test : Pokemon -> bool) (db : Store)
  : option (Pokemon * Store) :=
  match db with
  | [] => None
  | p :: db' =>
      if test p then Some (p, db')
      else '(r, rest) ← remove_first test db'; Some (r, p :: rest)
  end.

Definition findOneAndDelete (db : Store) (f : selector)
  : result (Store * option Pokemon) :=
  test ← cast f;
  mret match remove_first test db with
       | Some (p, db') => (db', Some p)
       | None => (db, None)
       end.

Definition deleted_message : string := "Pokemon supprimé".

Definition delete_pokemon (db : Store) (param : string) : Store * reply :=
  match findOneAndDelete db (Conj {[ "id" := Is param ]}) with
  | Ok (db', Some deleted) => (db', Reply 200 (Deleted deleted_message deleted))
  | Ok (db', None) => (db', Reply 404 (Error not_found))
  | Throw message => (db, Reply 500 (Error message))
  | OutsideModel => (db, NoModel)
  end.

(** ** Sample data *)

Definition mk_pokemon (i : Z) (en fr : string) (types : list string) (hp : Z)
  : Pokemon :=
  {| id := i;
     name := {| english := en; french := fr; japanese := en; chinese := en |};
     type := types;
     base := {| HP := hp; Attack := 50; Defense := 50; SpecialAttack := 50;
                SpecialDefense := 50; Speed := 50 |};
     image := default_image i |}.

Definition bulbasaur := mk_pokemon 1 "Bulbasaur" "Bulbizarre" ["Grass"; "Poison"] 45.
Definition charmander := mk_pokemon 4 "Charmander" "Salamèche" ["Fire"] 39.
Definition squirtle := mk_pokemon 7 "Squirtle" "Carapuce" ["Water"] 44.
Definition pikachu := mk_pokemon 25 "Pikachu" "Pikachu" ["Electric"] 35.

Definition sample_payload (img : option string) : Payload.t :=
  {| Payload.name :=
       Some {| Payload.english := Some "Mew"; Payload.french := Some "Mew";
               Payload.japanese := Some "Myuu"; Payload.chinese := Some "Meng" |};
     Payload.type := Some ["Psychic"];
     Payload.base :=
       Some {| Payload.HP := Some 100; Payload.Attack := Some 100;
               Payload.Defense := Some 100; Payload.SpecialAttack := Some 100;
               Payload.SpecialDefense := Some 100; Payload.Speed := Some 100 |};
     Payload.image := img |}.

(** ** Vocabulary of the properties *)

Definition mew_name : Name :=
  {| english := "Mew"; french := "Mew"; japanese := "Myuu"; chinese := "Meng" |}.
Definition mew_base : Base :=
  {| HP := 100; Attack := 100; Defense := 100; SpecialAttack := 100;
     SpecialDefense := 100; Speed := 100 |}.

Definition missingno : Pokemon := mk_pokemon 0 "MissingNo" "MissingNo" ["Bird"] 33.

Definition second_page : query := {[ "page" := "2" ]} ∪ {[ "limit" := "2" ]}.

(** The page of a sorted selection that a query with [skip] and [limit]
    returns. *)
Definition slice (s l : Z) (found : list Pokemon) : list Pokemon :=
  take (Z.to_nat (Z.abs l))
    (drop (Z.to_nat s) (merge_sort (Query.by_id Query.Asc) found)).

Definition envelope (q : query) (found : list Pokemon) : Envelope.t :=
  Envelope.mk (slice (skip q) (limit q) found) (page q) (limit q)
    (Z.of_nat (length found))
    (totalPages (Z.of_nat (length found)) (limit q)).

(** The clause the loop leaves for one statistic. *)
Definition bounds (q : query) (stat : string) : option clause :=
  match q !! ("min" +:+ stat), q !! ("max" +:+ stat) with
  | None, None => None
  | minVal, maxVal => Some (Range (Number <$> minVal) (Number <$> maxVal))
  end.

(** The clauses a built filter can hold. *)
Definition plain (c : clause) : Prop :=
  match c with
  | InStrings _ | Range _ _ => True
  | _ => False
  end.

(** Case-insensitive substring, as the spec words it. *)
Fixpoint fold_case (s : string) : string :=
  match s with
  | String c s' => String (Char.lower c) (fold_case s')
  | EmptyString => EmptyString
  end.

Definition ci_substring (term s : string) : Prop :=
  exists pre mid post,
    s = pre +:+ mid +:+ post /\ fold_case mid = fold_case term.


(** The same, decided. *)
Fixpoint ci_prefix (term s : string) : bool :=
  match term with
  | EmptyString => true
  | String c term' =>
      match s with
      | String d s' => Char.eqb_ci c d && ci_prefix term' s'
      | EmptyString => false
      end
  end.

Fixpoint ci_substringb (term s : string) : bool :=
  ci_prefix term s
  || match s with
     | String _ s' => ci_substringb term s'
     | EmptyString => false
     end.

(** A term free of pattern syntax. *)
Definition literal_term (term : string) : bool :=
  Str.all (fun c => negb (Regex.is_meta c)) term.

(** The pattern a term free of pattern syntax compiles to. *)
Fixpoint lits (term : string) : list (Regex.atom * Regex.quant) :=
  match term with
  | String c term' => (Regex.Lit c, Regex.One) :: lits term'
  | EmptyString => []
  end.

(** What the query parameters of the filter ask of a record: one of the
    listed types, and each statistic within the bounds given for it. *)
Definition in_range (v : Z) (lo hi : option string) : Prop :=
  (forall s, lo = Some s -> num_geb v (Number s) = true)
  /\ (forall s, hi = Some s -> num_leb v (Number s) = true).

Definition satisfies (q : query) (p : Pokemon) : Prop :=
  (truthy (q !! "types") = true ->
   exists t, t ∈ Str.split "," (default "" (q !! "types")) /\ t ∈ type p)
  /\ (forall st v, st ∈ statFields -> stat st (base p) = Some v ->
        in_range v (q !! ("min" +:+ st)) (q !! ("max" +:+ st))).

(** The parameters GET /pokemon/filter reads. *)
Definition filter_params : list string :=
  ["page"; "limit"; "types"]
  ++ map (String.append "min") statFields
  ++ map (String.append "max") statFields.

(** What may follow the digits [parseInt] reads: nothing, or a character
    that is no digit and no [x]. *)
Definition stops_number (rest : string) : bool :=
  match rest with
  | String c _ => negb (Char.is_digit c) && negb (Char.eqb_ci c "x")
  | EmptyString => true
  end.

(** The record a creation from [sample_payload None] stores under id [n]. *)
Definition mew (n : Z) : Pokemon :=
  {| id := n; name := mew_name; type := ["Psychic"]; base := mew_base;
     image := default_image n |}.

(** A history of creations and deletions, run from a store. *)
Inductive request :=
| Create (body : Payload.t)
| Remove (param : string).

Definition step (db : Store) (r : request) : Store :=
  match r with
  | Create body => (post_pokemon db body).1
  | Remove param => (delete_pokemon db param).1
  end.

Definition run (rs : list request) (db : Store) : Store := fold_left step rs db.

(** A request whose parameter the store converts without rounding: a
    creation, or a deletion whose parameter is no number or a safe
    integer. *)
Definition exact_request (r : request) : Prop :=
  match r with
  | Create _ => True
  | Remove param =>
      param <> "" /\ (Number param = NaN \/ exists n, safe n /\ Number param = of_Z n)
  end.

(** The ids of [db] leave room for [k] creations among the safe
    integers. *)
Definition room (k : Z) (db : Store) : Prop :=
  0 <= k < 2 ^ 53
  /\ Forall (fun x => - 2 ^ 53 < id x /\ id x + k < 2 ^ 53) db.

(** Natural order by strictly increasing id. *)
Definition ascending (db : Store) : Prop :=
  StronglySorted (fun a b => id a < id b) db.

Definition fire_or_water : query :=
  {[ "types" := "Fire,Water" ]} ∪ {[ "minHP" := "40" ]}.

Definition sample_history : list request :=
  [Create (sample_payload None); Create (sample_payload (Some ""));
   Remove "1"; Remove "abc"; Create (sample_payload None)].

(** * Properties *)

(** ** Strings *)

#[local] Arguments String.append !s1 s2 : simpl nomatch.

Module StrFacts.

Lemma app_assoc (a b c : string) : (a +:+ b) +:+ c = a +:+ (b +:+ c).
Proof. induction a as [|x a IH]; simpl; congruence. Qed.

Lemma app_nil_r (a : string) : a +:+ "" = a.
Proof. induction a as [|x a IH]; simpl; congruence. Qed.

Lemma all_app f a b : Str.all f (a +:+ b) = Str.all f a && Str.all f b.
Proof.
  induction a as [|x a IH]; simpl; [done |].
  by rewrite IH, andb_assoc.
Qed.

Lemma rev_onto_app s acc : Str.rev_onto s acc = Str.rev s +:+ acc.
Proof.
  unfold Str.rev. revert acc.
  induction s as [|x s IH]; intros acc; simpl; [done |].
  rewrite (IH (String x acc)), (IH (String x "")), app_assoc. done.
Qed.

Lemma rev_cons x s : Str.rev (String x s) = Str.rev s +:+ String x "".
Proof. unfold Str.rev at 1. simpl. apply rev_onto_app. Qed.

Lemma rev_app a b : Str.rev (a +:+ b) = Str.rev b +:+ Str.rev a.
Proof.
  induction a as [|x a IH]; simpl.
  - by rewrite app_nil_r.
  - by rewrite !rev_cons, IH, app_assoc.
Qed.

Lemma rev_involutive s : Str.rev (Str.rev s) = s.
Proof.
  induction s as [|x s IH]; [done |].
  by rewrite rev_cons, rev_app, IH.
Qed.

Lemma all_rev f s : Str.all f (Str.rev s) = Str.all f s.
Proof.
  induction s as [|x s IH]; [done |].
  rewrite rev_cons, all_app, IH. simpl.
  rewrite andb_true_r. apply andb_comm.
Qed.

Lemma drop_while_none f s :
  Str.all (fun c => negb (f c)) s = true -> Str.drop_while f s = s.
Proof.
  destruct s as [|x s]; simpl; [done |].
  intros [Hx _]%andb_true_iff. by destruct (f x).
Qed.

(** A string without white space is its own trim. *)
Lemma trim_id s :
  Str.all (fun c => negb (Char.is_space c)) s = true -> Str.trim s = s.
Proof.
  intros H. unfold Str.trim.
  rewrite (drop_while_none _ s H).
  rewrite drop_while_none by (by rewrite all_rev).
  apply rev_involutive.
Qed.

End StrFacts.

(** ** Decimal numerals: [String(n)] read back by [parseInt] and [Number] *)

Module NumFacts.
Import StrFacts.

Import Char.

Lemma of_digit_ok d :
  0 <= d < 10 -> Char.digit_in 10 (of_digit d) = Some d.
Proof.
  intros H.
  assert (d = 0 \/ d = 1 \/ d = 2 \/ d = 3 \/ d = 4 \/ d = 5 \/ d = 6
          \/ d = 7 \/ d = 8 \/ d = 9) as Hd by lia.
  repeat (destruct Hd as [-> | Hd]; [reflexivity |]). by subst.
Qed.

(** What the parsers test on the first characters of a numeral. *)
Lemma digit_facts c :
  is_digit c = true ->
  Char.is_space c = false /\ c <> "-"%char /\ c <> "+"%char
  /\ c <> "."%char /\ c <> "I"%char
  /\ Char.eqb_ci c "x" = false /\ Char.eqb_ci c "o" = false
  /\ Char.eqb_ci c "b" = false /\ Char.eqb_ci c "e" = false.
Proof.
  destruct c as [[] [] [] [] [] [] [] []]; vm_compute; intros H;
    try discriminate H; repeat split; congruence.
Qed.

Lemma read_digits_onto fuel : forall n s acc c,
  0 <= n < 2 ^ (Z.of_nat fuel + 1) ->
  exists k : nat,
    (0 < k)%nat /\
    Str.read_digits 10 acc c (digits_onto fuel n s)
    = Str.read_digits 10 (acc * 10 ^ Z.of_nat k + n) (c + k) s.
Proof.
  assert (Hone : forall n s acc c, 0 <= n < 10 ->
    Str.read_digits 10 acc c (String (of_digit (n mod 10)) s)
    = Str.read_digits 10 (acc * 10 ^ Z.of_nat 1 + n) (c + 1) s).
  { intros n s acc c Hn. simpl Str.read_digits.
    rewrite Z.mod_small by lia. rewrite of_digit_ok by lia.
    rewrite Nat.add_1_r. f_equal. }
  induction fuel as [|fuel IH]; intros n s acc c Hn.
  - exists 1%nat. split; [lia |]. apply Hone.
    change (2 ^ (Z.of_nat 0 + 1)) with 2 in Hn. lia.
  - simpl digits_onto. fold (of_digit (n mod 10)).
    destruct (n <? 10) eqn:Hlt.
    + exists 1%nat. split; [lia |]. apply Hone. lia.
    + apply Z.ltb_ge in Hlt.
      destruct (IH (n / 10) (String (of_digit (n mod 10)) s) acc c)
        as (k & Hk & ->).
      { split; [apply Z.div_pos; lia |].
        apply Z.div_lt_upper_bound; [lia |].
        replace (Z.of_nat (S fuel) + 1) with (Z.succ (Z.of_nat fuel + 1)) in Hn by lia.
        rewrite Z.pow_succ_r in Hn by lia. lia. }
      exists (S k). split; [lia |].
      simpl Str.read_digits.
      rewrite of_digit_ok by (apply Z.mod_pos_bound; lia).
      rewrite Nat2Z.inj_succ, Z.pow_succ_r by lia.
      f_equal; [| lia].
      pose proof (Z.div_mod n 10 ltac:(lia)). lia.
Qed.

Lemma digits_onto_app fuel : forall n s,
  digits_onto fuel n s = digits_onto fuel n "" +:+ s.
Proof.
  induction fuel as [|fuel IH]; intros n s; simpl; [done |].
  destruct (n <? 10); [done |].
  rewrite IH, (IH _ (String _ "")), app_assoc. done.
Qed.

Lemma digits_onto_digits fuel : forall n,
  0 <= n -> Str.all is_digit (digits_onto fuel n "") = true.
Proof.
  assert (Hd : forall n, 0 <= n -> is_digit (of_digit (n mod 10)) = true).
  { intros n Hn. unfold is_digit.
    by rewrite of_digit_ok by (apply Z.mod_pos_bound; lia). }
  induction fuel as [|fuel IH]; intros n Hn; simpl;
    fold (of_digit (n mod 10)).
  - by rewrite Hd.
  - destruct (n <? 10); simpl; [by rewrite Hd |].
    rewrite digits_onto_app, all_app, IH by (apply Z.div_pos; lia).
    simpl. by rewrite Hd.
Qed.

Lemma to_string_unfold n :
  to_string n = if n <? 0 then String "-" (numeral (Z.abs n))
                else numeral (Z.abs n).
Proof. reflexivity. Qed.

Lemma numeral_read m acc c :
  0 <= m ->
  exists k : nat, (0 < k)%nat /\
    Str.read_digits 10 acc c (numeral m)
    = (acc * 10 ^ Z.of_nat k + m, (c + k)%nat, "").
Proof.
  intros Hm. unfold numeral.
  destruct (read_digits_onto (Z.to_nat (Z.log2 m)) m "" acc c)
    as (k & Hk & ->).
  { split; [done |]. rewrite Z2Nat.id by apply Z.log2_nonneg.
    destruct (Z.eq_dec m 0) as [-> | Hne]; [done |].
    replace (Z.log2 m + 1) with (Z.succ (Z.log2 m)) by lia.
    apply Z.log2_spec. lia. }
  exists k. split; [done | reflexivity].
Qed.

Lemma numeral_digits m : 0 <= m -> Str.all is_digit (numeral m) = true.
Proof. apply digits_onto_digits. Qed.

Lemma numeral_cons m :
  0 <= m -> exists c s, numeral m = String c s /\ is_digit c = true
                        /\ Str.all is_digit s = true.
Proof.
  intros Hm. pose proof (numeral_digits m Hm) as Hall.
  destruct (numeral_read m 0 0 Hm) as (k & Hk & Hr).
  destruct (numeral m) as [|c s] eqn:E.
  - simpl in Hr. injection Hr as _ Hc. lia.
  - simpl in Hall. apply andb_true_iff in Hall as [? ?]. eauto.
Qed.

Lemma digits_no_space s :
  Str.all is_digit s = true -> Str.all (fun c => negb (Char.is_space c)) s = true.
Proof.
  induction s as [|c s IH]; simpl; [done |].
  intros [Hc Hs]%andb_true_iff.
  destruct (digit_facts c Hc) as (-> & _). simpl. auto.
Qed.

Lemma starts_with_digits a b s :
  Str.all is_digit s = true -> Char.eqb_ci b b = true ->
  (forall c, is_digit c = true -> Char.eqb_ci c b = false) ->
  Str.starts_with_ci a b s = None.
Proof.
  intros Hs _ Hb. destruct s as [|x [|y s]]; simpl; try done.
  simpl in Hs. apply andb_true_iff in Hs as [_ [Hy _]%andb_true_iff].
  rewrite (Hb y Hy). by rewrite andb_false_r.
Qed.

Lemma read_sign_digits s :
  Str.all is_digit s = true -> read_sign s = (1, s).
Proof.
  destruct s as [|c s]; simpl; [done |].
  intros [Hc _]%andb_true_iff.
  destruct (digit_facts c Hc) as (_ & Hminus & Hplus & _).
  destruct c as [[] [] [] [] [] [] [] []]; done.
Qed.

(** [parseInt] reads back the decimal form of every integer. *)
Lemma parseInt_to_string n : parseInt (Some (to_string n)) = Some n.
Proof.
  rewrite to_string_unfold.
  assert (Hm : 0 <= Z.abs n) by lia.
  destruct (numeral_cons _ Hm) as (c & s & E & Hc & Hs).
  destruct (numeral_read (Z.abs n) 0 0 Hm) as (k & Hk & Hr).
  assert (Hall : Str.all is_digit (numeral (Z.abs n)) = true)
    by (by apply numeral_digits).
  assert (Hx : Str.starts_with_ci "0" "x" (numeral (Z.abs n)) = None).
  { apply starts_with_digits; [done | done |].
    intros d Hd. by destruct (digit_facts d Hd) as (_&_&_&_&_&->&_). }
  unfold parseInt.
  destruct (n <? 0) eqn:Hneg.
  - simpl Str.drop_while. change (read_sign (String "-" ?s)) with (-1, s).
    cbv beta iota. rewrite Hx, Hr.
    destruct k; [lia |]. f_equal. apply Z.ltb_lt in Hneg. lia.
  - rewrite drop_while_none by (by apply digits_no_space).
    rewrite read_sign_digits by done. cbv beta iota. rewrite Hx, Hr.
    destruct k; [lia |]. f_equal. apply Z.ltb_ge in Hneg. lia.
Qed.

Lemma read_unsigned_numeral m :
  0 <= m -> read_unsigned (numeral m) = of_Z m.
Proof.
  intros Hm. unfold read_unsigned.
  pose proof (numeral_digits m Hm) as Hall.
  destruct (String.eqb_spec (numeral m) "Infinity") as [E | _].
  { rewrite E in Hall. discriminate Hall. }
  destruct (numeral_read m 0 0 Hm) as (k & Hk & ->).
  cbv beta iota. destruct k; [lia |]. simpl "+"%nat. cbv beta iota.
  simpl read_exponent. cbv beta iota. unfold scale10, of_Z. simpl Z.leb.
  cbv iota. do 2 f_equal. lia.
Qed.

Lemma read_numeric_numeral m :
  0 <= m -> read_numeric (numeral m) = of_Z m.
Proof.
  intros Hm. unfold read_numeric.
  pose proof (numeral_digits m Hm) as Hall.
  rewrite !starts_with_digits; try done.
  - by apply read_unsigned_numeral.
  - intros d Hd. by destruct (digit_facts d Hd) as (_&_&_&_&_&_&_&->&_).
  - intros d Hd. by destruct (digit_facts d Hd) as (_&_&_&_&_&_&->&_).
  - intros d Hd. by destruct (digit_facts d Hd) as (_&_&_&_&_&->&_).
Qed.

Lemma to_string_no_space n :
  Str.all (fun c => negb (Char.is_space c)) (to_string n) = true.
Proof.
  rewrite to_string_unfold.
  pose proof (digits_no_space _ (numeral_digits (Z.abs n) ltac:(lia))).
  by destruct (n <? 0).
Qed.

Lemma to_string_nonempty n : String.eqb (to_string n) "" = false.
Proof.
  rewrite to_string_unfold. destruct (n <? 0); [done |].
  by destruct (numeral_cons (Z.abs n) ltac:(lia)) as (c & s & -> & _).
Qed.

(** [Number] reads back the decimal form of every integer. *)
Lemma Number_to_string n : Number (to_string n) = of_Z n.
Proof.
  unfold Number. rewrite trim_id by apply to_string_no_space.
  rewrite to_string_unfold.
  assert (Hm : 0 <= Z.abs n) by lia.
  destruct (n <? 0) eqn:Hneg.
  - simpl Ascii.eqb. cbv iota. rewrite read_unsigned_numeral by done.
    unfold of_Z, negate, Qopp, inject_Z. simpl Qnum. simpl Qden.
    apply Z.ltb_lt in Hneg. do 2 f_equal. lia.
  - destruct (numeral_cons _ Hm) as (c & s & E & Hc & Hs).
    rewrite E.
    destruct (digit_facts c Hc) as (_ & Hminus & Hplus & _).
    destruct (Ascii.eqb_spec c "-"); [done |].
    destruct (Ascii.eqb_spec c "+"); [done |].
    rewrite <- E, read_numeric_numeral by done.
    apply Z.ltb_ge in Hneg. unfold of_Z. do 2 f_equal. lia.
Qed.

End NumFacts.

(** ** Queries *)

Module QueryFacts.

#[global] Instance by_id_total o : Total (Query.by_id o).
Proof. intros a b. destruct o; unfold Query.by_id; lia. Qed.

#[global] Instance by_id_trans o : Transitive (Query.by_id o).
Proof. intros a b c. destruct o; unfold Query.by_id; lia. Qed.

Lemma num_eqb_of_Z n z : num_eqb (of_Z n) z = (n =? z).
Proof.
  unfold num_eqb, of_Z, Qeq_bool, inject_Z. simpl.
  by rewrite !Z.mul_1_r.
Qed.

Lemma filter_true (test : Pokemon -> bool) (db : Store) :
  (forall p, test p = true) -> List.filter test db = db.
Proof.
  intros H. induction db as [|p db IH]; simpl; [done |].
  by rewrite H, IH.
Qed.

(** The empty filter [{}] selects every document. *)
Lemma cast_all :
  exists test, cast (Conj ∅) = Ok test /\ forall p, test p = true.
Proof.
  unfold cast. rewrite map_to_list_empty. simpl.
  eexists. split; [reflexivity | done].
Qed.

(** [{ id: param }] with the decimal form of [n] selects the documents
    whose id is [n]. *)
Lemma cast_id n :
  exists test, cast (Conj {[ "id" := Is (to_string n) ]}) = Ok test
               /\ forall p, test p = (n =? id p).
Proof.
  unfold cast. rewrite map_to_list_singleton.
  unfold cast_fields, cast_field, cast_clause. simpl fst. simpl snd.
  cbv beta iota.
rewrite NumFacts.to_string_nonempty, NumFacts.Number_to_string.
unfold of_Z at 1.
  eexists. split; [reflexivity |].
  intros p. simpl. rewrite andb_true_r. apply (num_eqb_of_Z n (id p)).
Qed.

Lemma exec_find db f test :
  cast f = Ok test ->
  Query.exec db (Query.find f) = Ok (List.filter test db).
Proof. intros H. unfold Query.exec. simpl. by rewrite H. Qed.

Lemma exec_sort db f o test :
  cast f = Ok test ->
  Query.exec db (Query.sort o (Query.find f))
  = Ok (merge_sort (Query.by_id o) (List.filter test db)).
Proof. intros H. unfold Query.exec. simpl. by rewrite H. Qed.

Lemma exec_page db f test s l :
  cast f = Ok test ->
  Query.exec db
    (Query.limit l (Query.skip s (Query.sort Query.Asc (Query.find f))))
  = if s <? 0 then Throw Query.skip_error
    else Ok (let rest := drop (Z.to_nat s)
                           (merge_sort (Query.by_id Query.Asc)
                              (List.filter test db)) in
             if l =? 0 then rest else take (Z.to_nat (Z.abs l)) rest).
Proof.
  intros H. unfold Query.exec. simpl. rewrite H. simpl.
  by destruct (s <? 0).
Qed.

Lemma count_ok db f test :
  cast f = Ok test ->
  countDocuments db f = Ok (Z.of_nat (length (List.filter test db))).
Proof. intros H. unfold countDocuments. by rewrite H. Qed.

Lemma sorted_elem_of o (l : list Pokemon) x :
  x ∈ merge_sort (Query.by_id o) l <-> x ∈ l.
Proof. by rewrite merge_sort_Permutation. Qed.

Lemma sorted_strongly o (l : list Pokemon) :
  StronglySorted (Query.by_id o) (merge_sort (Query.by_id o) l).
Proof. apply StronglySorted_merge_sort; apply _. Qed.

(** The head of a descending sort carries the greatest id. *)
Lemma desc_head (l : list Pokemon) p :
  head (merge_sort (Query.by_id Query.Desc) l) = Some p ->
  p ∈ l /\ forall x, x ∈ l -> id x <= id p.
Proof.
  intros [l' E]%head_Some.
  pose proof (sorted_strongly Query.Desc l) as Hs. rewrite E in Hs.
  apply StronglySorted_inv in Hs as [_ Hall].
  split.
  - apply (sorted_elem_of Query.Desc). rewrite E. left.
  - intros x Hx. apply (sorted_elem_of Query.Desc) in Hx. rewrite E in Hx.
    apply elem_of_cons in Hx as [-> | Hx]; [lia |].
    rewrite Forall_forall in Hall. apply (Hall x Hx).
Qed.

Lemma desc_head_none (l : list Pokemon) :
  head (merge_sort (Query.by_id Query.Desc) l) = None -> l = [].
Proof.
  intros H. apply head_None in H.
  apply Permutation_nil_r. rewrite <- H.
  symmetry. apply merge_sort_Permutation.
Qed.

Lemma sorted_drop o n (l : list Pokemon) :
  StronglySorted (Query.by_id o) l -> StronglySorted (Query.by_id o) (drop n l).
Proof.
  intros H. rewrite <- (take_drop n l) in H.
  by apply StronglySorted_app_1_r in H.
Qed.

Lemma sorted_take o n (l : list Pokemon) :
  StronglySorted (Query.by_id o) l -> StronglySorted (Query.by_id o) (take n l).
Proof.
  intros H. rewrite <- (take_drop n l) in H.
  by apply StronglySorted_app_1_l in H.
Qed.

End QueryFacts.

(** ** Creation, lookup and deletion *)

Module CrudFacts.
Import QueryFacts.

Lemma filter_none (test : Pokemon -> bool) (db : Store) :
  (forall x, x ∈ db -> test x = false) -> List.filter test db = [].
Proof.
  induction db as [|p db IH]; intros H; simpl; [done |].
  rewrite (H p) by left. apply IH. intros x Hx. apply H. by right.
Qed.

(** What [newId] computes: 1 on an empty store, otherwise one more than
    the greatest id present. *)
Lemma newId_spec (db : Store) :
  exists n, newId db = Ok n
    /\ ((db = [] /\ n = 1)
        \/ exists m, m ∈ db /\ (forall x, x ∈ db -> id x <= id m) /\ n = id m + 1).
Proof.
  destruct cast_all as (test & Hc & Ht).
  unfold newId, Query.one.
  rewrite (exec_sort db _ _ test Hc), (filter_true _ _ Ht). simpl.
  destruct (head (merge_sort (Query.by_id Query.Desc) db)) as [m|] eqn:E.
  - exists (id m + 1). split; [done |]. right.
    apply desc_head in E as [Hm Hmax]. eauto.
  - exists 1. split; [done |]. left. by apply desc_head_none in E.
Qed.

Lemma validate_carries i n ty b img :
  validate (Draft.mk i (Some (name_json n)) (Some ty) (Some (base_json b)) img)
  = Some {| id := i; name := n; type := ty; base := b; image := img |}.
Proof. by destruct n, b. Qed.

Lemma validate_id d p : validate d = Some p -> id p = Draft.id d.
Proof.
  unfold validate. intros H.
  repeat match type of H with
         | (mbind _ ?o) = Some _ =>
             let x := fresh in destruct o as [x|]; simpl in H; [| discriminate H]
         end.
  by injection H as <-.
Qed.

Lemma post_carries db body nm ty bs n :
  carries body nm ty bs -> newId db = Ok n ->
  let p := {| id := n; name := nm; type := ty; base := bs;
              image := or_else (Payload.image body) (default_image n) |} in
  post_pokemon db body = (db ++ [p], Reply 201 (Doc p)).
Proof.
  intros (Hn & Ht & Hb) Hid p. unfold post_pokemon.
  rewrite Hid. simpl. rewrite Hn, Ht, Hb. unfold save.
  by rewrite validate_carries.
Qed.

Lemma post_created db body db' r n :
  newId db = Ok n ->
  post_pokemon db body = (db', Reply 201 (Doc r)) ->
  id r = n /\ db' = db ++ [r].
Proof.
  intros Hid. unfold post_pokemon. rewrite Hid. simpl. unfold save.
  destruct (validate _) as [p|] eqn:E; simpl; intros H; [| discriminate H].
  injection H as <- <-. split; [| done].
  by apply validate_id in E.
Qed.

(** Fetching by the decimal form of an id finds the first document that
    carries it. *)
Lemma get_by_id_first (l1 l2 : Store) p :
  (forall x, x ∈ l1 -> id x <> id p) ->
  get_by_id (l1 ++ p :: l2) (to_string (id p)) = Reply 200 (Doc p).
Proof.
  intros Hl1. destruct (cast_id (id p)) as (test & Hc & Ht).
  unfold get_by_id, Query.one. rewrite (exec_find _ _ test Hc).
  rewrite List.filter_app, filter_none.
  - simpl. rewrite Ht, Z.eqb_refl. done.
  - intros x Hx. rewrite Ht. apply Z.eqb_neq. intros E. by apply (Hl1 x Hx).
Qed.

Lemma remove_first_found test (l1 l2 : Store) p :
  (forall x, x ∈ l1 -> test x = false) -> test p = true ->
  remove_first test (l1 ++ p :: l2) = Some (p, l1 ++ l2).
Proof.
  intros H1 Hp. induction l1 as [|x l1 IH]; simpl.
  - by rewrite Hp.
  - rewrite (H1 x) by left. rewrite IH; [done |].
    intros y Hy. apply H1. by right.
Qed.

Lemma remove_first_none test (db : Store) :
  (forall x, x ∈ db -> test x = false) -> remove_first test db = None.
Proof.
  induction db as [|x db IH]; intros H; simpl; [done |].
  rewrite (H x) by left. rewrite IH; [done |].
  intros y Hy. apply H. by right.
Qed.

(** The first document with a given id splits the store around it. *)
Lemma first_with_id (db : Store) n :
  (exists r, r ∈ db /\ id r = n) ->
  exists r l1 l2, db = l1 ++ r :: l2 /\ id r = n
                  /\ forall x, x ∈ l1 -> id x <> n.
Proof.
  induction db as [|x db IH]; intros (r & Hr & Hn).
  - by apply elem_of_nil in Hr.
  - destruct (Z.eq_dec (id x) n) as [E | NE].
    + exists x, [], db. split; [done |]. split; [done |].
      intros y Hy. by apply elem_of_nil in Hy.
    + apply elem_of_cons in Hr as [-> | Hr]; [done |].
      destruct IH as (r' & l1 & l2 & -> & Hr' & Hl1); [eauto |].
      exists r', (x :: l1), l2. split; [done |]. split; [done |].
      intros y [-> | Hy]%elem_of_cons; auto.
Qed.

End CrudFacts.

(** ** Identifier allocation (POST /pokemon) *)

(** C6.  On a store whose ids are safe integers, the identifier POST
    /pokemon allocates is 1 on an empty store and one more than the
    greatest id present otherwise, and every record a creation returns
    carries that identifier and is appended to the store.  In particular
    two valid creations in a row on an empty store return the ids 1 and
    2. *)
Theorem allocated_id (db : Store) (b1 b2 : Payload.t)
    (n1 n2 : Name) (t1 t2 : list string) (s1 s2 : Base) :
  Forall (fun x => safe (id x)) db ->
  carries b1 n1 t1 s1 -> carries b2 n2 t2 s2 ->
  (exists n, newId db = Ok n
     /\ ((db = [] /\ n = 1)
         \/ exists m, m ∈ db /\ (forall x, x ∈ db -> id x <= id m) /\ n = id m + 1)
     /\ (exists p, post_pokemon db b1 = (db ++ [p], Reply 201 (Doc p)) /\ id p = n)
     /\ (forall body db' r,
           post_pokemon db body = (db', Reply 201 (Doc r)) ->
           id r = n /\ db' = db ++ [r]))
  /\ (exists p1 p2 db2,
        post_pokemon [] b1 = ([p1], Reply 201 (Doc p1)) /\ id p1 = 1
        /\ post_pokemon [p1] b2 = (db2, Reply 201 (Doc p2)) /\ id p2 = 2).
Proof.
  intros _ H1 H2. split.
  - destruct (CrudFacts.newId_spec db) as (n & Hn & Hmax).
    exists n. repeat split; [done | done | |
      by eapply CrudFacts.post_created | by eapply CrudFacts.post_created].
    eexists. split; [by apply (CrudFacts.post_carries db b1 n1 t1 s1 n) |].
    done.
  - pose proof (CrudFacts.post_carries [] b1 n1 t1 s1 1 H1 eq_refl) as P1.
    simpl in P1.
    set (p1 := {| id := 1; name := n1; type := t1; base := s1;
                  image := or_else (Payload.image b1) (default_image 1) |})
      in P1.
    pose proof (CrudFacts.post_carries [p1] b2 n2 t2 s2 2 H2 eq_refl) as P2.
    simpl in P2.
    do 3 eexists. split; [exact P1 |]. split; [reflexivity |].
    split; [exact P2 | reflexivity].
Qed.

Lemma sample_carries img :
  carries (sample_payload img) mew_name ["Psychic"] mew_base.
Proof. repeat split. Qed.

Lemma allocated_id_witness :
  (exists n, newId [bulbasaur; pikachu; squirtle] = Ok n
     /\ (([bulbasaur; pikachu; squirtle] = [] /\ n = 1)
         \/ exists m, m ∈ [bulbasaur; pikachu; squirtle]
              /\ (forall x, x ∈ [bulbasaur; pikachu; squirtle] -> id x <= id m)
              /\ n = id m + 1)
     /\ (exists p, post_pokemon [bulbasaur; pikachu; squirtle] (sample_payload None)
                   = ([bulbasaur; pikachu; squirtle] ++ [p], Reply 201 (Doc p))
                   /\ id p = n)
     /\ (forall body db' r,
           post_pokemon [bulbasaur; pikachu; squirtle] body
           = (db', Reply 201 (Doc r)) ->
           id r = n /\ db' = [bulbasaur; pikachu; squirtle] ++ [r]))
  /\ (exists p1 p2 db2,
        post_pokemon [] (sample_payload None) = ([p1], Reply 201 (Doc p1))
        /\ id p1 = 1
        /\ post_pokemon [p1] (sample_payload (Some "mew.png"))
           = (db2, Reply 201 (Doc p2))
        /\ id p2 = 2).
Proof.
  apply (allocated_id [bulbasaur; pikachu; squirtle]
           (sample_payload None) (sample_payload (Some "mew.png"))
           mew_name mew_name ["Psychic"] ["Psychic"] mew_base mew_base).
  - repeat constructor.
  - repeat split.
  - repeat split.
Defined.

(** ** Round trip: create, then fetch by the returned id *)

(** C8, as the code has it.  The image of the created record is the
    payload's image only when that is a non-empty string; an omitted or
    empty image is replaced by the URL template with the new id.  With
    that, on a store whose ids are safe integers, creating from a payload
    with name, type and base F and fetching by the returned id yields a
    record with those fields, whose id is 1 on an empty store and the
    greatest id plus 1 otherwise. *)
Theorem create_then_fetch (db : Store) (body : Payload.t)
    (nm : Name) (ty : list string) (bs : Base) :
  Forall (fun x => safe (id x)) db ->
  carries body nm ty bs ->
  exists p db',
    post_pokemon db body = (db', Reply 201 (Doc p))
    /\ get_by_id db' (to_string (id p)) = Reply 200 (Doc p)
    /\ name p = nm /\ type p = ty /\ base p = bs
    /\ image p = match Payload.image body with
                 | Some (String c url) => String c url
                 | _ => default_image (id p)
                 end
    /\ ((db = [] /\ id p = 1)
        \/ exists m, m ∈ db /\ (forall x, x ∈ db -> id x <= id m)
                     /\ id p = id m + 1).
Proof.
  intros _ Hc.
  destruct (CrudFacts.newId_spec db) as (n & Hn & Hmax).
  pose proof (CrudFacts.post_carries db body nm ty bs n Hc Hn) as Hpost.
  simpl in Hpost. eexists. eexists. split; [exact Hpost |].
  split; [| repeat split; try done].
  - apply (CrudFacts.get_by_id_first db []). simpl. intros x Hx E.
    destruct Hmax as [[-> _] | (m & _ & Hle & ->)].
    + by apply elem_of_nil in Hx.
    + specialize (Hle x Hx). lia.
  - simpl. unfold or_else.
    by destruct (Payload.image body) as [[|c url]|].
Qed.

Lemma create_then_fetch_witness :
  exists p db',
    post_pokemon [charmander; bulbasaur] (sample_payload None)
    = (db', Reply 201 (Doc p))
    /\ get_by_id db' (to_string (id p)) = Reply 200 (Doc p)
    /\ name p = mew_name /\ type p = ["Psychic"] /\ base p = mew_base
    /\ image p = match Payload.image (sample_payload None) with
                 | Some (String c url) => String c url
                 | _ => default_image (id p)
                 end
    /\ (([charmander; bulbasaur] = [] /\ id p = 1)
        \/ exists m, m ∈ [charmander; bulbasaur]
             /\ (forall x, x ∈ [charmander; bulbasaur] -> id x <= id m)
             /\ id p = id m + 1).
Proof.
  apply (create_then_fetch [charmander; bulbasaur] (sample_payload None)
           mew_name ["Psychic"] mew_base).
  - repeat constructor.
  - repeat split.
Defined.

(** C8 as stated fails on a payload whose image is the empty string: the
    stored image is the URL template, not the payload's field. *)
Lemma create_empty_image :
  Payload.image (sample_payload (Some "")) = Some ""
  /\ post_pokemon [] (sample_payload (Some ""))
     = ([ {| id := 1; name := mew_name; type := ["Psychic"]; base := mew_base;
             image := "http://localhost:3000/assets/pokemons/1.png" |} ],
        Reply 201
          (Doc {| id := 1; name := mew_name; type := ["Psychic"];
                  base := mew_base;
                  image := "http://localhost:3000/assets/pokemons/1.png" |})).
Proof. split; reflexivity. Qed.

(** ** Deletion (DELETE /pokemon/:id) *)

Module CastFacts.

(** The cast of [{ id: param }] for any parameter a route can bind. *)
Lemma cast_param param :
  param <> "" ->
  (Number param = NaN ->
   cast (Conj {[ "id" := Is param ]}) = Throw cast_error)
  /\ (isNaN (Number param) = false ->
      exists test, cast (Conj {[ "id" := Is param ]}) = Ok test
        /\ forall p, test p = num_eqb (Number param) (id p)).
Proof.
  intros Hne. unfold cast. rewrite map_to_list_singleton.
  unfold cast_fields, cast_field, cast_clause. simpl fst. simpl snd.
  cbv beta iota.
  destruct (String.eqb_spec param "") as [E | _]; [done |].
  split.
  - by intros ->.
  - intros Hnum. destruct (Number param) as [| neg | x] eqn:E; [done | |];
      (eexists; split; [reflexivity |]); intros p; cbn [andb];
      apply andb_true_r.
Qed.

(** The first record passing a test splits the store around it. *)
Lemma first_passing (test : Pokemon -> bool) (db : Store) :
  (exists r, r ∈ db /\ test r = true) ->
  exists r l1 l2, db = l1 ++ r :: l2 /\ test r = true
                  /\ forall x, x ∈ l1 -> test x = false.
Proof.
  induction db as [|x db IH]; intros (r & Hr & Ht).
  - by apply elem_of_nil in Hr.
  - destruct (test x) eqn:Ex.
    + exists x, [], db. split; [done |]. split; [done |].
      intros y Hy. by apply elem_of_nil in Hy.
    + apply elem_of_cons in Hr as [-> | Hr]; [congruence |].
      destruct IH as (r' & l1 & l2 & -> & Hr' & Hl1); [eauto |].
      exists r', (x :: l1), l2. split; [done |]. split; [done |].
      intros y [-> | Hy]%elem_of_cons; auto.
Qed.

(** Deleting with a test the cast has produced. *)
Lemma delete_with db param test :
  cast (Conj {[ "id" := Is param ]}) = Ok test ->
  ((exists r, r ∈ db /\ test r = true) ->
   exists r l1 l2,
     db = l1 ++ r :: l2 /\ test r = true
     /\ (forall x, x ∈ l1 -> test x = false)
     /\ delete_pokemon db param
        = (l1 ++ l2, Reply 200 (Deleted deleted_message r)))
  /\ ((forall r, r ∈ db -> test r = false) ->
      delete_pokemon db param = (db, Reply 404 (Error not_found))).
Proof.
  intros Hc. unfold delete_pokemon, findOneAndDelete. rewrite Hc. simpl.
  split.
  - intros Hex.
    destruct (first_passing test db Hex) as (r & l1 & l2 & -> & Hr & Hl1).
    exists r, l1, l2. repeat split; try done.
    by rewrite CrudFacts.remove_first_found.
  - intros Hnone. by rewrite CrudFacts.remove_first_none.
Qed.

End CastFacts.

(** C9, as the code has it.  The [:id] parameter is converted with
    [Number] by the store's cast.  When it converts to a safe integer, as
    the decimal form of every safe integer does, the first record with that
    id is removed from the store and returned with status 200, and when no
    record has that id the answer is 404 and the store is the same.  When
    the parameter does not convert to a number, the cast fails and the
    answer is 500, with the store the same. *)
Theorem delete_by_id (db : Store) (param : string) :
  param <> "" ->
  (Number param = NaN ->
   delete_pokemon db param = (db, Reply 500 (Error cast_error)))
  /\ (forall n, safe n -> Number param = of_Z n ->
      ((exists r, r ∈ db /\ id r = n) ->
       exists r l1 l2,
         db = l1 ++ r :: l2 /\ id r = n /\ (forall x, x ∈ l1 -> id x <> n)
         /\ delete_pokemon db param
            = (l1 ++ l2, Reply 200 (Deleted deleted_message r)))
      /\ ((forall r, r ∈ db -> id r <> n) ->
          delete_pokemon db param = (db, Reply 404 (Error not_found))))
  /\ (forall n, safe n -> param = to_string n -> Number param = of_Z n).
Proof.
  intros Hne. destruct (CastFacts.cast_param param Hne) as [Hnan Hnum].
  split; [| split].
  - intros E. unfold delete_pokemon, findOneAndDelete. by rewrite (Hnan E).
  - intros n _ HN. destruct Hnum as (test & Hc & Ht); [by rewrite HN |].
    assert (Ht' : forall p, test p = (n =? id p)).
    { intros p. by rewrite Ht, HN, QueryFacts.num_eqb_of_Z. }
    destruct (CastFacts.delete_with db param test Hc) as [Hfound Hnone].
    split.
    + intros (r & Hr & Hn).
      destruct Hfound as (r' & l1 & l2 & -> & Hr' & Hl1 & Hdel).
      { exists r. rewrite Ht'. split; [done |]. by apply Z.eqb_eq. }
      exists r', l1, l2. split; [done |].
      rewrite Ht' in Hr'. apply Z.eqb_eq in Hr'. split; [done |].
      split; [| done]. intros x Hx E. specialize (Hl1 x Hx).
      rewrite Ht' in Hl1. apply Z.eqb_neq in Hl1. by apply Hl1.
    + intros Hno. apply Hnone. intros r Hr. rewrite Ht'. apply Z.eqb_neq.
      intros E. by apply (Hno r Hr).
  - intros n _ ->. apply NumFacts.Number_to_string.
Qed.

Lemma delete_by_id_witness :
  ((exists r, r ∈ [bulbasaur; charmander; squirtle] /\ id r = 4) ->
   exists r l1 l2,
     [bulbasaur; charmander; squirtle] = l1 ++ r :: l2 /\ id r = 4
     /\ (forall x, x ∈ l1 -> id x <> 4)
     /\ delete_pokemon [bulbasaur; charmander; squirtle] "4"
        = (l1 ++ l2, Reply 200 (Deleted deleted_message r)))
  /\ ((forall r, r ∈ [bulbasaur; charmander; squirtle] -> id r <> 4) ->
      delete_pokemon [bulbasaur; charmander; squirtle] "4"
      = ([bulbasaur; charmander; squirtle], Reply 404 (Error not_found))).
Proof.
  apply (delete_by_id [bulbasaur; charmander; squirtle] "4"
           ltac:(discriminate)) with (n := 4).
  - split; reflexivity.
  - reflexivity.
Defined.

(** C9 as stated fails on a parameter that is no number: no record has
    the id [abc], and the answer is 500, not 404. *)
Lemma delete_non_numeric_id :
  Number "abc" = NaN
  /\ existsb (fun r => num_eqb (Number "abc") (id r)) [bulbasaur; charmander]
     = false
  /\ delete_pokemon [bulbasaur; charmander] "abc"
     = ([bulbasaur; charmander], Reply 500 (Error cast_error))
  /\ status_of (delete_pokemon [bulbasaur; charmander] "abc").2 = Some 500.
Proof. repeat split. Qed.

(** A blank parameter converts to 0 and deletes the record with id 0. *)
Example delete_blank_id :
  delete_pokemon [bulbasaur; missingno] " "
  = ([bulbasaur], Reply 200 (Deleted deleted_message missingno)).
Proof. reflexivity. Qed.

(** ** Batch lookup (GET /pokemon/by-ids) *)

Module IdsFacts.
Import QueryFacts.

Lemma idList_elem ids n :
  n ∈ idList ids
  <-> isNaN n = false /\ exists tok, tok ∈ Str.split "," ids /\ Number tok = n.
Proof.
  unfold idList. rewrite list_elem_of_In, filter_In, in_map_iff.
  rewrite negb_true_iff. split.
  - intros [(tok & E & Hin) Hn]. split; [done |].
    exists tok. by apply list_elem_of_In in Hin.
  - intros [Hn (tok & Hin & E)]. split; [| done].
    exists tok. by apply list_elem_of_In in Hin.
Qed.

Lemma idList_numbers ids :
  forallb (fun n => negb (isNaN n)) (idList ids) = true.
Proof.
  apply forallb_forall. intros n Hn.
  apply list_elem_of_In, idList_elem in Hn as [-> _]. done.
Qed.

Lemma cast_ids ids :
  exists test, cast (Conj {[ "id" := InNumbers (idList ids) ]}) = Ok test
    /\ forall p, test p = existsb (fun n => num_eqb n (id p)) (idList ids).
Proof.
  unfold cast. rewrite map_to_list_singleton.
  unfold cast_fields, cast_field, cast_clause. simpl fst. simpl snd.
  cbv beta iota. rewrite idList_numbers.
  eexists. split; [reflexivity |].
  intros p. simpl. by rewrite andb_true_r.
Qed.

(** The outcome for a non-empty [ids] parameter. *)
Lemma get_by_ids_some db (q : query) c ids :
  q !! "ids" = Some (String c ids) ->
  exists test,
    (forall p, test p
               = existsb (fun n => num_eqb n (id p)) (idList (String c ids)))
    /\ get_by_ids db q
       = Reply 200 (Docs (merge_sort (Query.by_id Query.Asc)
                            (List.filter test db))).
Proof.
  intros Hq. destruct (cast_ids (String c ids)) as (test & Hc & Ht).
  exists test. split; [done |].
  unfold get_by_ids. rewrite Hq. simpl truthy. simpl negb. cbv iota.
  simpl default. by rewrite (exec_sort db _ _ test Hc).
Qed.

Lemma selected_elem (test : Pokemon -> bool) (db : Store) p :
  p ∈ merge_sort (Query.by_id Query.Asc) (List.filter test db)
  <-> p ∈ db /\ test p = true.
Proof. by rewrite sorted_elem_of, !list_elem_of_In, filter_In. Qed.

End IdsFacts.

(** C7, as the code has it.  An absent and an empty [ids] parameter are
    both answered 400.  For a non-empty value every comma-separated token
    is converted with [Number], the tokens that give [NaN] are dropped,
    and the answer is 200 with the records whose id equals one of the
    remaining numbers, sorted by ascending id; when every token gives
    [NaN] that list is empty.  For [1,abc,3] the numbers are 1 and 3. *)
Theorem by_ids_lookup (db : Store) (q : query) :
  ((q !! "ids" = None \/ q !! "ids" = Some "") ->
   get_by_ids db q = Reply 400 (Error ids_error))
  /\ (forall ids, q !! "ids" = Some ids -> ids <> "" ->
      exists l,
        get_by_ids db q = Reply 200 (Docs l)
        /\ StronglySorted (fun a b => id a <= id b) l
        /\ (forall p, p ∈ l <->
              p ∈ db /\ exists tok n, tok ∈ Str.split "," ids
                          /\ Number tok = n /\ isNaN n = false
                          /\ num_eqb n (id p) = true)
        /\ ((forall tok, tok ∈ Str.split "," ids -> Number tok = NaN) -> l = []))
  /\ idList "1,abc,3" = [of_Z 1; of_Z 3].
Proof.
  split; [| split; [| reflexivity]].
  - unfold get_by_ids. by intros [-> | ->].
  - intros [|c ids] Hq Hne; [done |].
    destruct (IdsFacts.get_by_ids_some db q c ids Hq) as (test & Ht & ->).
    eexists. split; [reflexivity |].
    assert (Hmem : forall p,
      p ∈ merge_sort (Query.by_id Query.Asc) (List.filter test db) <->
      p ∈ db /\ exists tok n, tok ∈ Str.split "," (String c ids)
                  /\ Number tok = n /\ isNaN n = false
                  /\ num_eqb n (id p) = true).
    { intros p. rewrite IdsFacts.selected_elem, Ht, existsb_exists.
      split.
      - intros [Hp (n & Hn & Heq)]. split; [done |].
        apply list_elem_of_In, IdsFacts.idList_elem in Hn
          as [Hnan (tok & Htok & E)].
        by exists tok, n.
      - intros [Hp (tok & n & Htok & E & Hnan & Heq)]. split; [done |].
        exists n. split; [| done].
        apply list_elem_of_In, IdsFacts.idList_elem. eauto. }
    split; [apply (QueryFacts.sorted_strongly Query.Asc) |].
    split; [exact Hmem |].
    intros Hall.
    destruct (merge_sort _ _) as [|p l] eqn:E; [done |]. exfalso.
    destruct (proj1 (Hmem p) ltac:(left))
      as [_ (tok & n & Htok & Hn & Hnan & _)].
    rewrite (Hall tok Htok) in Hn. by subst n.
Qed.

Lemma by_ids_lookup_witness :
  ((({[ "ids" := "7,abc,1" ]} : query) !! "ids" = None
    \/ ({[ "ids" := "7,abc,1" ]} : query) !! "ids" = Some "") ->
   get_by_ids [pikachu; squirtle; bulbasaur] {[ "ids" := "7,abc,1" ]}
   = Reply 400 (Error ids_error))
  /\ (forall ids, ({[ "ids" := "7,abc,1" ]} : query) !! "ids" = Some ids ->
      ids <> "" ->
      exists l,
        get_by_ids [pikachu; squirtle; bulbasaur] {[ "ids" := "7,abc,1" ]}
        = Reply 200 (Docs l)
        /\ StronglySorted (fun a b => id a <= id b) l
        /\ (forall p, p ∈ l <->
              p ∈ [pikachu; squirtle; bulbasaur]
              /\ exists tok n, tok ∈ Str.split "," ids
                   /\ Number tok = n /\ isNaN n = false
                   /\ num_eqb n (id p) = true)
        /\ ((forall tok, tok ∈ Str.split "," ids -> Number tok = NaN) -> l = []))
  /\ idList "1,abc,3" = [of_Z 1; of_Z 3].
Proof.
  exact (by_ids_lookup [pikachu; squirtle; bulbasaur] {[ "ids" := "7,abc,1" ]}).
Defined.

(** C7 as stated fails on an empty [ids] value: it is answered 400, as an
    absent parameter is, and not by an empty result set. *)
Lemma by_ids_empty_value :
  ({[ "ids" := "" ]} : query) !! "ids" = Some ""
  /\ get_by_ids [bulbasaur; charmander] {[ "ids" := "" ]}
     = Reply 400 (Error ids_error).
Proof. split; reflexivity. Qed.

(** The scenario of the spec: [ids=1,abc,3] on a store holding 3, 2, 1. *)
Example by_ids_scenario :
  get_by_ids [mk_pokemon 3 "Venusaur" "Florizarre" ["Grass"] 80;
              mk_pokemon 2 "Ivysaur" "Herbizarre" ["Grass"] 60;
              bulbasaur]
    {[ "ids" := "1,abc,3" ]}
  = Reply 200 (Docs [bulbasaur;
                     mk_pokemon 3 "Venusaur" "Florizarre" ["Grass"] 80]).
Proof. vm_compute. reflexivity. Qed.

(** C10.  An empty token of the [ids] list converts to the number 0 and
    stays in the queried set.  The answer is 200 with exactly the records
    of the store whose id equals one of the queried numbers, in ascending
    id order, so every record whose id is 0 is part of it and a record
    whose id is not queried is not; for [1,,3] the queried numbers are 1,
    0 and 3. *)
Theorem by_ids_empty_token (db : Store) (q : query) (ids : string) (r : Pokemon) :
  q !! "ids" = Some ids -> ids <> "" ->
  "" ∈ Str.split "," ids -> r ∈ db -> id r = 0 ->
  Number "" = of_Z 0
  /\ of_Z 0 ∈ idList ids
  /\ (exists l,
        get_by_ids db q = Reply 200 (Docs l)
        /\ r ∈ l
        /\ StronglySorted (fun a b => id a <= id b) l
        /\ (forall p, p ∈ l <->
              p ∈ db /\ exists n, n ∈ idList ids /\ num_eqb n (id p) = true)
        /\ (forall p, p ∈ db -> id p = 0 -> p ∈ l))
  /\ idList "1,,3" = [of_Z 1; of_Z 0; of_Z 3].
Proof.
  intros Hq Hne Htok Hr Hid.
  assert (H0 : of_Z 0 ∈ idList ids).
  { apply IdsFacts.idList_elem. split; [done |]. by exists "". }
  repeat split; [done |].
  destruct ids as [|c ids]; [done |].
  destruct (IdsFacts.get_by_ids_some db q c ids Hq) as (test & Ht & ->).
  assert (Hzero : forall p, p ∈ db -> id p = 0 ->
            p ∈ merge_sort (Query.by_id Query.Asc) (List.filter test db)).
  { intros p Hp Hp0. apply IdsFacts.selected_elem. split; [done |].
    rewrite Ht. apply existsb_exists. exists (of_Z 0).
    split; [by apply list_elem_of_In |]. by rewrite Hp0. }
  eexists. split; [reflexivity |].
  split; [by apply Hzero |].
  split; [apply (QueryFacts.sorted_strongly Query.Asc) |].
  split; [| done].
  intros p. rewrite IdsFacts.selected_elem, Ht, existsb_exists.
  split.
  - intros [Hp (n & Hn & Heq)]. split; [done |].
    exists n. by apply list_elem_of_In in Hn.
  - intros [Hp (n & Hn & Heq)]. split; [done |].
    exists n. by apply list_elem_of_In in Hn.
Qed.

Lemma by_ids_empty_token_witness :
  Number "" = of_Z 0
  /\ of_Z 0 ∈ idList "1,,3"
  /\ (exists l,
        get_by_ids [charmander; bulbasaur; missingno] {[ "ids" := "1,,3" ]}
        = Reply 200 (Docs l)
        /\ missingno ∈ l
        /\ StronglySorted (fun a b => id a <= id b) l
        /\ (forall p, p ∈ l <->
              p ∈ [charmander; bulbasaur; missingno]
              /\ exists n, n ∈ idList "1,,3" /\ num_eqb n (id p) = true)
        /\ (forall p, p ∈ [charmander; bulbasaur; missingno] ->
                      id p = 0 -> p ∈ l))
  /\ idList "1,,3" = [of_Z 1; of_Z 0; of_Z 3].
Proof.
  apply (by_ids_empty_token [charmander; bulbasaur; missingno]
           {[ "ids" := "1,,3" ]} "1,,3" missingno).
  - reflexivity.
  - discriminate.
  - vm_compute. right. left.
  - right. right. left.
  - reflexivity.
Defined.

(** The answer on that store: the record with id 0 first, the record with
    id 4, which is not queried, left out. *)
Example by_ids_empty_token_scenario :
  get_by_ids [charmander; bulbasaur; missingno] {[ "ids" := "1,,3" ]}
  = Reply 200 (Docs [missingno; bulbasaur]).
Proof. vm_compute. reflexivity. Qed.

(** ** Pagination (GET /pokemon and GET /pokemon/filter) *)

Module PagingFacts.
Import QueryFacts.

Lemma or_default_nonzero x d : d <> 0 -> (or_default x d =? 0) = false.
Proof.
  intros Hd. unfold or_default. apply Z.eqb_neq.
  destruct x as [n|]; [| done].
  destruct (n =? 0) eqn:E; [done |]. by apply Z.eqb_neq.
Qed.

Lemma limit_nonzero q : (limit q =? 0) = false.
Proof. by apply or_default_nonzero. Qed.

Lemma page_nonzero q : (page q =? 0) = false.
Proof. by apply or_default_nonzero. Qed.

(** Both paginated handlers, once the filter is cast. *)
Lemma paged db (q : query) f test :
  cast f = Ok test ->
  try_catch 500 (
    total ← countDocuments db f;
    pokemons ← Query.exec db
      (Query.limit (limit q)
         (Query.skip (skip q) (Query.sort Query.Asc (Query.find f))));
    mret (Reply 200 (Page (Envelope.mk pokemons (page q) (limit q) total
                             (totalPages total (limit q))))))
  = if skip q <? 0 then Reply 500 (Error Query.skip_error)
    else Reply 200 (Page (envelope q (List.filter test db))).
Proof.
  intros Hc. rewrite (count_ok db f test Hc), (exec_page db f test _ _ Hc).
  simpl. destruct (skip q <? 0); [done |].
  simpl. by rewrite limit_nonzero.
Qed.

Lemma get_pokemon_unfold db q :
  get_pokemon db q
  = if skip q <? 0 then Reply 500 (Error Query.skip_error)
    else Reply 200 (Page (envelope q db)).
Proof.
  destruct cast_all as (test & Hc & Ht).
  unfold get_pokemon. rewrite (paged db q _ test Hc).
  by rewrite (filter_true _ _ Ht).
Qed.

Lemma get_filter_ok db q test :
  cast (Conj (build_filter q)) = Ok test ->
  get_filter db q
  = if skip q <? 0 then Reply 500 (Error Query.skip_error)
    else Reply 200 (Page (envelope q (List.filter test db))).
Proof. intros Hc. unfold get_filter. by rewrite (paged db q _ test Hc). Qed.

Lemma get_filter_throw db q m :
  cast (Conj (build_filter q)) = Throw m ->
  get_filter db q = Reply 500 (Error m).
Proof.
  intros Hc. unfold get_filter, countDocuments. by rewrite Hc.
Qed.

(** [Math.ceil(total / limit)] in integer arithmetic. *)
Lemma totalPages_value total lim :
  lim <> 0 ->
  totalPages total lim = of_Z (- ((- (total * Z.sgn lim)) / Z.abs lim)).
Proof.
  intros Hl. unfold totalPages, js_div.
  destruct (lim =? 0) eqn:E; [by apply Z.eqb_eq in E |].
  unfold Math_ceil. f_equal.
  rewrite (Qceiling_comp _ _ (Qred_correct _)).
  unfold Qceiling, Qfloor, Qopp. simpl Qnum. simpl Qden.
  rewrite Z2Pos.id by lia. done.
Qed.

Lemma totalPages_negative total lim :
  0 <= total -> lim < 0 ->
  totalPages total lim = of_Z (- (total / - lim)).
Proof.
  intros Ht Hl. rewrite totalPages_value by lia.
  rewrite Z.sgn_neg, Z.abs_neq by lia.
  do 3 f_equal. lia.
Qed.

Lemma totalPages_positive total lim :
  0 < lim -> totalPages total lim = of_Z ((total + lim - 1) / lim).
Proof.
  intros Hl. rewrite totalPages_value by lia.
  rewrite Z.sgn_pos, Z.abs_eq by lia. f_equal.
  rewrite Z.mul_1_r.
  pose proof (Z.div_mod (- total) lim ltac:(lia)) as H1.
  pose proof (Z.mod_pos_bound (- total) lim Hl) as H2.
  apply Z.div_unique with (r := lim - 1 - (- total) mod lim); lia.
Qed.

End PagingFacts.

(** C4, as the code has it, on a request whose resolved [page], [limit]
    and [skip] are safe integers.  [page] and [limit] fall back to 1 and 20
    when the parameter is absent or [parseInt] reads no number or reads 0;
    otherwise they are the integer [parseInt] reads from the value,
    whatever the value, a negative integer included; so it is for the
    decimal form of an integer.  [skip] is [(page - 1) * limit] of the
    resolved values, and a paginated answer reports the resolved [page] and
    [limit] and holds the records from position [skip] on, at most
    [|limit|] of them, in ascending id order. *)
Theorem pagination_parameters (db : Store) (q : query) :
  safe (page q) -> safe (limit q) -> safe (skip q) ->
  (q !! "page" = None -> page q = 1)
  /\ (q !! "limit" = None -> limit q = 20)
  /\ (forall s, q !! "page" = Some s -> parseInt (Some s) = None -> page q = 1)
  /\ (forall s, q !! "limit" = Some s -> parseInt (Some s) = None -> limit q = 20)
  /\ (forall s n, q !! "page" = Some s -> parseInt (Some s) = Some n ->
        page q = if n =? 0 then 1 else n)
  /\ (forall s n, q !! "limit" = Some s -> parseInt (Some s) = Some n ->
        limit q = if n =? 0 then 20 else n)
  /\ (forall n, q !! "page" = Some (to_string n) ->
        page q = if n =? 0 then 1 else n)
  /\ (forall n, q !! "limit" = Some (to_string n) ->
        limit q = if n =? 0 then 20 else n)
  /\ skip q = (page q - 1) * limit q
  /\ (forall e, get_pokemon db q = Reply 200 (Page e) ->
        0 <= skip q
        /\ Envelope.page e = page q /\ Envelope.limit e = limit q
        /\ Envelope.pokemons e
           = take (Z.to_nat (Z.abs (limit q)))
               (drop (Z.to_nat (skip q))
                  (merge_sort (Query.by_id Query.Asc) db)))
  /\ (forall e, get_filter db q = Reply 200 (Page e) ->
        0 <= skip q
        /\ Envelope.page e = page q /\ Envelope.limit e = limit q)
  /\ parseInt (Some "abc") = None /\ parseInt (Some "") = None
  /\ parseInt (Some "2.9") = Some 2 /\ parseInt (Some "7up") = Some 7.
Proof.
  intros _ _ _. unfold page, limit.
  repeat split; try reflexivity.
  - by intros ->.
  - by intros ->.
  - by intros s -> ->.
  - by intros s -> ->.
  - by intros s n -> ->.
  - by intros s n -> ->.
  - intros n ->. by rewrite NumFacts.parseInt_to_string.
  - intros n ->. by rewrite NumFacts.parseInt_to_string.
  - rewrite PagingFacts.get_pokemon_unfold in H.
    destruct (skip q <? 0) eqn:E; [done |]. by apply Z.ltb_ge in E.
  - rewrite PagingFacts.get_pokemon_unfold in H.
    destruct (skip q <? 0); [done |]. by injection H as <-.
  - rewrite PagingFacts.get_pokemon_unfold in H.
    destruct (skip q <? 0); [done |]. by injection H as <-.
  - rewrite PagingFacts.get_pokemon_unfold in H.
    destruct (skip q <? 0); [done |]. by injection H as <-.
  - destruct (cast (Conj (build_filter q))) as [test | m |] eqn:Hc.
    + rewrite (PagingFacts.get_filter_ok db q test Hc) in H.
      destruct (skip q <? 0) eqn:E; [done |]. by apply Z.ltb_ge in E.
    + by rewrite (PagingFacts.get_filter_throw db q m Hc) in H.
    + unfold get_filter, countDocuments in H. by rewrite Hc in H.
  - destruct (cast (Conj (build_filter q))) as [test | m |] eqn:Hc.
    + rewrite (PagingFacts.get_filter_ok db q test Hc) in H.
      destruct (skip q <? 0); [done |]. by injection H as <-.
    + by rewrite (PagingFacts.get_filter_throw db q m Hc) in H.
    + unfold get_filter, countDocuments in H. by rewrite Hc in H.
  - destruct (cast (Conj (build_filter q))) as [test | m |] eqn:Hc.
    + rewrite (PagingFacts.get_filter_ok db q test Hc) in H.
      destruct (skip q <? 0); [done |]. by injection H as <-.
    + by rewrite (PagingFacts.get_filter_throw db q m Hc) in H.
    + unfold get_filter, countDocuments in H. by rewrite Hc in H.
Qed.

Lemma pagination_parameters_witness :
  page second_page = 2 /\ limit second_page = 2 /\ skip second_page = 2
  /\ get_pokemon [pikachu; squirtle; charmander; bulbasaur] second_page
     = Reply 200 (Page (Envelope.mk [squirtle; pikachu] 2 2 4 (of_Z 2))).
Proof.
  assert (Hsafe : safe (page second_page) /\ safe (limit second_page)
                  /\ safe (skip second_page)).
  { vm_compute. repeat split. }
  destruct Hsafe as (S1 & S2 & S3).
  pose proof (pagination_parameters
                [pikachu; squirtle; charmander; bulbasaur] second_page
                S1 S2 S3)
    as (_ & _ & _ & _ & Hp & Hl & _ & _ & Hs & _).
  split; [exact (Hp "2" 2 eq_refl eq_refl) |].
  split; [exact (Hl "2" 2 eq_refl eq_refl) |].
  split; [rewrite Hs, (Hp "2" 2 eq_refl eq_refl), (Hl "2" 2 eq_refl eq_refl);
          reflexivity |].
  vm_compute. reflexivity.
Defined.

(** C4 as stated fails on negative values: they are kept, not replaced by
    the defaults. *)
Lemma pagination_negative_kept :
  page {[ "page" := "-2" ]} = -2
  /\ limit {[ "limit" := "-5" ]} = -5
  /\ skip {[ "page" := "-2" ]} = -60.
Proof. repeat split. Qed.

(** C3, as the code has it.  [limit] never resolves to 0, because a parsed
    0 falls back to 20.  With a negative [limit] the division raises
    nothing and [totalPages] is [ceil(total / limit)], that is
    [- floor(total / |limit|)]: it is 0 only while [total < |limit|].
    Both paginated handlers report that value. *)
Theorem total_pages_limit (db : Store) (q : query) (total : Z) :
  (limit q =? 0) = false
  /\ (0 <= total -> limit q < 0 ->
      totalPages total (limit q) = of_Z (- (total / - limit q))
      /\ (totalPages total (limit q) = of_Z 0 <-> total < - limit q))
  /\ (forall e, get_pokemon db q = Reply 200 (Page e) ->
        Envelope.total e = Z.of_nat (length db)
        /\ Envelope.totalPages e = totalPages (Envelope.total e) (limit q))
  /\ (forall e, get_filter db q = Reply 200 (Page e) ->
        Envelope.totalPages e = totalPages (Envelope.total e) (limit q)).
Proof.
  split; [apply PagingFacts.limit_nonzero |].
  split; [| split].
  - intros Ht Hl. rewrite PagingFacts.totalPages_negative by done.
    split; [done |]. unfold of_Z, inject_Z. split.
    + intros E. injection E as E.
      assert (E' : total / - limit q = 0) by lia.
      apply Z.div_small_iff in E'; lia.
    + intros Hlt. rewrite Z.div_small by lia. done.
  - intros e H. rewrite PagingFacts.get_pokemon_unfold in H.
    destruct (skip q <? 0); [done |]. by injection H as <-.
  - intros e H.
    destruct (cast (Conj (build_filter q))) as [test | m |] eqn:Hc.
    + rewrite (PagingFacts.get_filter_ok db q test Hc) in H.
      destruct (skip q <? 0); [done |]. by injection H as <-.
    + by rewrite (PagingFacts.get_filter_throw db q m Hc) in H.
    + unfold get_filter, countDocuments in H. by rewrite Hc in H.
Qed.

Lemma total_pages_limit_witness :
  totalPages 25 (limit {[ "limit" := "-10" ]}) = of_Z (- (25 / - limit {[ "limit" := "-10" ]}))
  /\ (totalPages 25 (limit {[ "limit" := "-10" ]}) = of_Z 0
      <-> 25 < - limit {[ "limit" := "-10" ]}).
Proof.
  apply (total_pages_limit [] {[ "limit" := "-10" ]} 25).
  - lia.
  - vm_compute. reflexivity.
Defined.

(** C3 as stated fails for a negative limit: with 25 records and
    [limit=-10] the computed [totalPages] is -2. *)
Lemma total_pages_negative_limit :
  limit {[ "limit" := "-10" ]} = -10
  /\ totalPages 25 (limit {[ "limit" := "-10" ]}) = of_Z (-2)
  /\ limit {[ "limit" := "0" ]} = 20.
Proof. repeat split. Qed.

(** The same on the handler: four records, [limit=-3]. *)
Example get_pokemon_negative_limit :
  get_pokemon [bulbasaur; charmander; squirtle; pikachu] {[ "limit" := "-3" ]}
  = Reply 200 (Page (Envelope.mk [bulbasaur; charmander; squirtle]
                       1 (-3) 4 (of_Z (-1)))).
Proof. vm_compute. reflexivity. Qed.

(** The scenario of the spec: ids 1..25, [page=2&limit=10]. *)
Example get_pokemon_scenario :
  let db := map (fun i => mk_pokemon i "Unown" "Zarbi" ["Psychic"] 48)
              (seqZ 1 25) in
  match get_pokemon db ({[ "page" := "2" ]} ∪ {[ "limit" := "10" ]}) with
  | Reply 200 (Page e) =>
      map id (Envelope.pokemons e) = seqZ 11 10
      /\ Envelope.total e = 25 /\ Envelope.totalPages e = of_Z 3
  | _ => False
  end.
Proof. vm_compute. repeat split. Qed.

(** ** The filter built from the request (GET /pokemon/filter) *)

Module FilterFacts.

Lemma add_stat_eq q (m : gmap string clause) stat :
  add_stat q m stat
  = match bounds q stat with
    | Some c => <[ "base." +:+ stat := c ]> m
    | None => m
    end.
Proof.
  unfold add_stat, bounds.
  by destruct (q !! ("min" +:+ stat)), (q !! ("max" +:+ stat)).
Qed.

Lemma add_stat_lookup q (m : gmap string clause) x stat :
  add_stat q m x !! ("base." +:+ stat)
  = if decide (x = stat)
    then match bounds q stat with
         | Some c => Some c
         | None => m !! ("base." +:+ stat)
         end
    else m !! ("base." +:+ stat).
Proof.
  rewrite add_stat_eq. destruct (decide (x = stat)) as [-> | Hne].
  - destruct (bounds q stat); [by rewrite lookup_insert_eq | done].
  - destruct (bounds q x); [| done].
    rewrite lookup_insert_ne; [done |].
    intros E. by apply (inj (String.app "base.")) in E.
Qed.

Lemma fold_add_stat q (l : list string) : forall (m : gmap string clause) stat,
  fold_left (add_stat q) l m !! ("base." +:+ stat)
  = if decide (stat ∈ l)
    then match bounds q stat with
         | Some c => Some c
         | None => m !! ("base." +:+ stat)
         end
    else m !! ("base." +:+ stat).
Proof.
  induction l as [|x l IH]; intros m stat; cbn [fold_left].
  - by rewrite decide_False by apply not_elem_of_nil.
  - rewrite IH, add_stat_lookup.
    destruct (decide (stat ∈ l)) as [Hin | Hnin],
             (decide (x = stat)) as [-> | Hne].
    + rewrite decide_True by left. by destruct (bounds q stat).
    + rewrite decide_True by (by right). done.
    + rewrite decide_True by left. done.
    + rewrite decide_False; [done |].
      intros [-> | ?]%elem_of_cons; done.
Qed.

(** After the loop, each of the six statistics has exactly the clause
    its two parameters call for. *)
Lemma build_filter_stat q stat :
  stat ∈ statFields ->
  build_filter q !! ("base." +:+ stat) = bounds q stat.
Proof.
  intros Hin. unfold build_filter.
  rewrite fold_add_stat, decide_True by done.
  destruct (bounds q stat); [done |].
  destruct (truthy (q !! "types")); [| done].
  apply lookup_singleton_ne.
  unfold statFields in Hin.
  repeat (apply elem_of_cons in Hin as [-> | Hin]; [done |]).
  by apply elem_of_nil in Hin.
Qed.

Lemma build_filter_plain q k c : build_filter q !! k = Some c -> plain c.
Proof.
  unfold build_filter.
  set (init := if truthy (q !! "types") then _ else _).
  assert (Hinit : forall k c, init !! k = Some c -> plain c).
  { intros k' c'. unfold init. destruct (truthy (q !! "types")).
    - intros [_ <-]%lookup_singleton_Some. done.
    - by rewrite lookup_empty. }
  clearbody init. revert init Hinit k c.
  induction statFields as [|x l IH]; intros init Hinit k c; simpl.
  - apply Hinit.
  - apply IH. intros k' c'. rewrite add_stat_eq.
    destruct (bounds q x) as [b|] eqn:Eb; [| apply Hinit].
    destruct (decide ("base." +:+ x = k')) as [<- | Hne].
    + rewrite lookup_insert_eq. intros [= <-].
      unfold bounds in Eb.
      by destruct (q !! ("min" +:+ x)), (q !! ("max" +:+ x));
        simplify_eq.
    + rewrite lookup_insert_ne by done. apply Hinit.
Qed.

(** Casting plain clauses resolves or is refused for a [NaN] bound. *)
Lemma cast_fields_plain (l : list (string * clause)) :
  (forall kc, kc ∈ l -> plain kc.2) ->
  cast_fields l = Throw cast_error \/ exists ts, cast_fields l = Ok ts.
Proof.
  induction l as [|[k c] l IH]; intros H; simpl.
  - right. by eexists.
  - assert (Hc : plain c) by (apply (H (k, c)); left).
    destruct IH as [-> | [ts ->]].
    { intros kc Hkc. apply H. by right. }
    + destruct c; try done; unfold cast_field; simpl; [by left |].
      destruct (bound_ok gte && bound_ok lte); simpl; by left.
    + destruct c; try done; unfold cast_field; simpl.
      * right. by eexists.
      * destruct (bound_ok gte && bound_ok lte); simpl;
          [right; by eexists | by left].
Qed.

Lemma cast_build_filter q :
  cast (Conj (build_filter q)) = Throw cast_error
  \/ exists test, cast (Conj (build_filter q)) = Ok test.
Proof.
  unfold cast.
  destruct (cast_fields_plain (map_to_list (build_filter q)))
    as [-> | [ts ->]].
  - intros [k c] Hkc. apply elem_of_map_to_list in Hkc.
    by apply (build_filter_plain q k c).
  - by left.
  - right. by eexists.
Qed.

(** The answers GET /pokemon/filter can give. *)
Lemma get_filter_cases db q :
  (exists e, get_filter db q = Reply 200 (Page e))
  \/ get_filter db q = Reply 500 (Error cast_error)
  \/ get_filter db q = Reply 500 (Error Query.skip_error).
Proof.
  destruct (cast_build_filter q) as [Hc | [test Hc]].
  - right. left. by apply PagingFacts.get_filter_throw.
  - rewrite (PagingFacts.get_filter_ok db q test Hc).
    destruct (skip q <? 0); [by right; right | left; by eexists].
Qed.

(** A [NaN] bound makes the cast of the filter fail. *)
Lemma cast_fields_nan (l : list (string * clause)) k gte lte :
  (forall kc, kc ∈ l -> plain kc.2) ->
  (k, Range gte lte) ∈ l -> bound_ok gte && bound_ok lte = false ->
  cast_fields l = Throw cast_error.
Proof.
  induction l as [|[k' c] l IH]; intros Hp Hin Hb.
  - by apply elem_of_nil in Hin.
  - apply elem_of_cons in Hin as [[= <- <-] | Hin].
    + simpl. unfold cast_field. simpl. by rewrite Hb.
    + simpl. rewrite (IH ltac:(intros kc Hkc; apply Hp; by right) Hin Hb).
      assert (Hc : plain c) by (apply (Hp (k', c)); left).
      destruct c as [| | | g l' |]; try done. unfold cast_field. simpl.
      by destruct (bound_ok g && bound_ok l').
Qed.

End FilterFacts.

(** C1, as the code has it.  For each of the six statistics, a bound that
    is present is converted with [Number] and written into the range
    clause as it comes out, [NaN] included.  The handler validates
    nothing and never answers 400: its answers are 200 with an envelope
    or 500, and a bound that converts to [NaN] is refused by the store's
    cast, which ends the request in 500. *)
Theorem filter_bounds_unchecked (db : Store) (q : query) :
  Forall (fun stat =>
            build_filter q !! ("base." +:+ stat)
            = match q !! ("min" +:+ stat), q !! ("max" +:+ stat) with
              | None, None => None
              | minVal, maxVal =>
                  Some (Range (Number <$> minVal) (Number <$> maxVal))
              end) statFields
  /\ ((exists e, get_filter db q = Reply 200 (Page e))
      \/ get_filter db q = Reply 500 (Error cast_error)
      \/ get_filter db q = Reply 500 (Error Query.skip_error))
  /\ (forall stat s, stat ∈ statFields ->
        q !! ("min" +:+ stat) = Some s \/ q !! ("max" +:+ stat) = Some s ->
        Number s = NaN ->
        get_filter db q = Reply 500 (Error cast_error))
  /\ Number "abc" = NaN.
Proof.
  split; [| split; [| split; [| reflexivity]]].
  - apply Forall_forall. intros stat Hin.
    apply (FilterFacts.build_filter_stat q stat Hin).
  - apply FilterFacts.get_filter_cases.
  - intros stat s Hin Hs Hnan.
    apply PagingFacts.get_filter_throw. unfold cast.
    pose proof (FilterFacts.build_filter_stat q stat Hin) as Hl.
    unfold bounds in Hl.
    assert (exists gte lte, build_filter q !! ("base." +:+ stat)
                            = Some (Range gte lte)
                            /\ bound_ok gte && bound_ok lte = false)
      as (gte & lte & Hk & Hb).
    { destruct Hs as [Hs | Hs]; rewrite Hs in Hl.
      - do 2 eexists. split; [exact Hl |]. simpl. by rewrite Hnan.
      - destruct (q !! ("min" +:+ stat)); do 2 eexists;
          (split; [exact Hl |]); simpl; rewrite Hnan; simpl;
          by rewrite ?andb_false_r. }
    rewrite (FilterFacts.cast_fields_nan _ ("base." +:+ stat) gte lte);
      [done | | by apply elem_of_map_to_list | done].
    intros [k c] Hkc. apply elem_of_map_to_list in Hkc.
    by apply (FilterFacts.build_filter_plain q k c).
Qed.

Lemma filter_bounds_unchecked_witness :
  get_filter [bulbasaur; charmander] {[ "maxSpeed" := "fast" ]}
  = Reply 500 (Error cast_error).
Proof.
  apply (filter_bounds_unchecked [bulbasaur; charmander]
           {[ "maxSpeed" := "fast" ]}) with (stat := "Speed") (s := "fast").
  - unfold statFields. set_solver.
  - right. reflexivity.
  - reflexivity.
Defined.

(** C1 as stated fails on [minHP=abc]: the bound is put into the clause as
    [NaN] and the answer is not a 400. *)
Lemma filter_non_numeric_bound :
  Number "abc" = NaN
  /\ build_filter {[ "minHP" := "abc" ]} !! "base.HP"
     = Some (Range (Some NaN) None)
  /\ bool_decide
       (status_of (get_filter [bulbasaur; charmander] {[ "minHP" := "abc" ]})
        = Some 400) = false.
Proof. repeat split. Qed.

(** Numeric bounds select by range: [types=Fire,Water&minHP=40]. *)
Example get_filter_scenario :
  get_filter [pikachu; squirtle; charmander; bulbasaur]
    ({[ "types" := "Fire,Water" ]} ∪ {[ "minHP" := "40" ]})
  = Reply 200 (Page (Envelope.mk [squirtle] 1 20 1 (of_Z 1))).
Proof. vm_compute. reflexivity. Qed.

(** ** Search by name (GET /pokemon/search) *)

Module RegexFacts.

Lemma not_meta c :
  Regex.is_meta c = false ->
  Ascii.eqb c "\" = false /\ Ascii.eqb c "." = false
  /\ Regex.quant_of c = None.
Proof.
  destruct c as [[] [] [] [] [] [] [] []]; vm_compute; intros H;
    try discriminate H; repeat split.
Qed.

(** A term free of pattern syntax compiles to its own characters. *)
Lemma parse_literal term : forall acc,
  literal_term term = true ->
  Regex.parse term acc = Regex.Pattern (rev acc ++ lits term).
Proof.
  unfold literal_term.
  induction term as [|c term IH]; intros acc; simpl.
  - intros _. by rewrite app_nil_r.
  - intros [Hc Ht]%andb_true_iff. apply negb_true_iff in Hc.
    destruct (not_meta c Hc) as (-> & -> & ->). rewrite Hc.
    rewrite (IH _ Ht). simpl. by rewrite <- app_assoc.
Qed.

Lemma compile_literal term :
  literal_term term = true ->
  Regex.compile term = Regex.Pattern (lits term).
Proof. intros H. unfold Regex.compile. by rewrite parse_literal. Qed.

Lemma match_here_lits term : forall s,
  Regex.match_here true (lits term) s = ci_prefix term s.
Proof.
  induction term as [|c term IH]; intros s; simpl; [done |].
  destruct s as [|d s]; [done |]. by rewrite IH.
Qed.

Lemma search_lits term s :
  Regex.search true (lits term) s = ci_substringb term s.
Proof.
  induction s as [|d s IH]; simpl.
  - by rewrite match_here_lits.
  - by rewrite match_here_lits, IH.
Qed.

Lemma eqb_ci_eq a b : Char.eqb_ci a b = true <-> Char.lower a = Char.lower b.
Proof. apply Ascii.eqb_eq. Qed.

Lemma ci_prefix_spec term : forall s,
  ci_prefix term s = true
  <-> exists mid post, s = mid +:+ post /\ fold_case mid = fold_case term.
Proof.
  induction term as [|c term IH]; intros s; simpl.
  - split; [intros _; by exists "", s |done].
  - destruct s as [|d s].
    + split; [done |]. intros ([|x mid] & post & E & Hf); simplify_eq/=.
    + rewrite andb_true_iff, eqb_ci_eq, IH. split.
      * intros (Hcd & mid & post & -> & Hf).
        exists (String d mid), post. simpl. by rewrite Hf, Hcd.
      * intros ([|x mid] & post & E & Hf); simplify_eq/=.
        split; [done |]. by exists mid, post.
Qed.

(** The decided test is the spec's substring relation. *)
Lemma ci_substringb_spec term s :
  ci_substringb term s = true <-> ci_substring term s.
Proof.
  unfold ci_substring. induction s as [|d s IH]; simpl.
  - rewrite orb_false_r, ci_prefix_spec. split.
    + intros (mid & post & E & Hf). by exists "", mid, post.
    + intros ([|x pre] & mid & post & E & Hf); simplify_eq/=.
      by exists mid, post.
  - rewrite orb_true_iff, ci_prefix_spec, IH. split.
    + intros [(mid & post & E & Hf) | (pre & mid & post & E & Hf)].
      * by exists "", mid, post.
      * exists (String d pre), mid, post. simpl. by rewrite E.
    + intros ([|x pre] & mid & post & E & Hf); simplify_eq/=.
      * left. by exists mid, post.
      * right. by exists pre, mid, post.
Qed.

(** The test the store makes for a literal search term. *)
Lemma cast_search term :
  literal_term term = true ->
  exists test, cast (search_filter term) = Ok test
    /\ forall p, test p
       = ci_substringb term (english (name p))
         || ci_substringb term (french (name p))
         || ci_substringb term (japanese (name p))
         || ci_substringb term (chinese (name p)).
Proof.
  intros H. unfold cast, search_filter, cast_fields, cast_field, cast_clause.
  simpl fst. simpl snd. simpl String.eqb. cbv iota.
  rewrite (compile_literal term H). eexists. split; [reflexivity |].
  intros p. simpl. rewrite !search_lits, orb_false_r, !orb_assoc. done.
Qed.

Lemma filter_sublist (test : Pokemon -> bool) (db : Store) :
  sublist (List.filter test db) db.
Proof.
  induction db as [|p db IH]; simpl; [constructor |].
  destruct (test p); by constructor.
Qed.

End RegexFacts.




(** The scenario of the spec: [name=char] finds Charmander. *)
Example search_scenario :
  get_search [bulbasaur; charmander; squirtle; pikachu] {[ "name" := "char" ]}
  = Reply 200 (Docs [charmander]).
Proof. vm_compute. reflexivity. Qed.

(** ** Order of the answers *)

(** The four listing handlers that sort: their answers are in ascending
    id order whatever the order of the store. *)
Lemma listings_sorted (db : Store) (q : query) :
  (forall e, get_pokemon db q = Reply 200 (Page e) ->
     StronglySorted (Query.by_id Query.Asc) (Envelope.pokemons e))
  /\ (forall e, get_filter db q = Reply 200 (Page e) ->
        StronglySorted (Query.by_id Query.Asc) (Envelope.pokemons e))
  /\ (forall l, get_by_ids db q = Reply 200 (Docs l) ->
        StronglySorted (Query.by_id Query.Asc) l)
  /\ (exists l, get_list_all db = Reply 200 (Summaries (map summary l))
                /\ StronglySorted (Query.by_id Query.Asc) l).
Proof.
  assert (Hslice : forall s l found,
    StronglySorted (Query.by_id Query.Asc) (slice s l found)).
  { intros. apply QueryFacts.sorted_take, QueryFacts.sorted_drop,
      QueryFacts.sorted_strongly. }
  repeat split.
  - intros e H. rewrite PagingFacts.get_pokemon_unfold in H.
    destruct (skip q <? 0); [done |]. injection H as <-. apply Hslice.
  - intros e H.
    destruct (cast (Conj (build_filter q))) as [test | m |] eqn:Hc.
    + rewrite (PagingFacts.get_filter_ok db q test Hc) in H.
      destruct (skip q <? 0); [done |]. injection H as <-. apply Hslice.
    + by rewrite (PagingFacts.get_filter_throw db q m Hc) in H.
    + unfold get_filter, countDocuments in H. by rewrite Hc in H.
  - intros l H. destruct (q !! "ids") as [[|c ids]|] eqn:Hq.
    + unfold get_by_ids in H. by rewrite Hq in H.
    + destruct (IdsFacts.get_by_ids_some db q c ids Hq) as (test & _ & E).
      rewrite E in H. injection H as <-. apply QueryFacts.sorted_strongly.
    + unfold get_by_ids in H. by rewrite Hq in H.
  - destruct QueryFacts.cast_all as (test & Hc & Ht).
    unfold get_list_all. rewrite (QueryFacts.exec_sort db _ _ test Hc).
    eexists. split; [reflexivity |]. apply QueryFacts.sorted_strongly.
Qed.

(** C5 on the code: the search handler does not sort.  On a store whose
    natural order is Pikachu (25) before Bulbasaur (1), the term [a] is
    answered in that order, while the batch lookup of the same two records
    is answered by ascending id. *)
Lemma search_not_sorted :
  get_search [pikachu; bulbasaur] {[ "name" := "a" ]}
  = Reply 200 (Docs [pikachu; bulbasaur])
  /\ map id [pikachu; bulbasaur] = [25; 1]
  /\ get_by_ids [pikachu; bulbasaur] {[ "ids" := "25,1" ]}
     = Reply 200 (Docs [bulbasaur; pikachu]).
Proof. repeat split. Qed.

(** * Further properties of the handlers *)

(** ** Pages of the listing *)

Module PageFacts.

Lemma sorted_length o (l : list Pokemon) :
  length (merge_sort (Query.by_id o) l) = length l.
Proof. apply Permutation_length, merge_sort_Permutation. Qed.

Lemma skip_nonneg q : 1 <= page q -> 1 <= limit q -> 0 <= skip q.
Proof. unfold skip. nia. Qed.

Lemma slice_length s l (found : list Pokemon) :
  0 <= s -> 1 <= l ->
  Z.of_nat (length (slice s l found))
  = Z.min l (Z.max 0 (Z.of_nat (length found) - s)).
Proof.
  intros Hs Hl. unfold slice.
  rewrite length_take, length_drop, sorted_length. lia.
Qed.

Lemma slice_lookup s l (found : list Pokemon) (j : nat) :
  0 <= s -> (Z.of_nat j < l) ->
  slice s l found !! j
  = merge_sort (Query.by_id Query.Asc) found !! (Z.to_nat s + j)%nat.
Proof.
  intros Hs Hj. unfold slice.
  rewrite lookup_take_lt by lia. apply lookup_drop.
Qed.

End PageFacts.

(** X1.  GET /pokemon with a page and a limit that resolve to positive
    numbers answers 200; [total] is the size of the store, the page holds
    [min(limit, total - skip)] records (none when [skip] reaches [total]),
    and [totalPages] is the number of pages of [limit] records that
    [total] records fill. *)
Theorem listing_page (db : Store) (q : query) :
  1 <= page q -> 1 <= limit q ->
  exists e,
    get_pokemon db q = Reply 200 (Page e)
    /\ Envelope.page e = page q /\ Envelope.limit e = limit q
    /\ Envelope.total e = Z.of_nat (length db)
    /\ Z.of_nat (length (Envelope.pokemons e))
       = Z.min (limit q) (Z.max 0 (Z.of_nat (length db) - skip q))
    /\ Envelope.totalPages e
       = of_Z ((Z.of_nat (length db) + limit q - 1) / limit q).
Proof.
  intros Hp Hl. pose proof (PageFacts.skip_nonneg q Hp Hl) as Hs.
  rewrite PagingFacts.get_pokemon_unfold.
  destruct (skip q <? 0) eqn:E; [apply Z.ltb_lt in E; lia |].
  eexists. split; [reflexivity |]. simpl.
  repeat split.
  - by apply PageFacts.slice_length.
  - apply PagingFacts.totalPages_positive. lia.
Qed.

Lemma listing_page_witness :
  exists e,
    get_pokemon [pikachu; squirtle; charmander; bulbasaur] second_page
    = Reply 200 (Page e)
    /\ Envelope.page e = page second_page
    /\ Envelope.limit e = limit second_page
    /\ Envelope.total e = Z.of_nat (length [pikachu; squirtle; charmander; bulbasaur])
    /\ Z.of_nat (length (Envelope.pokemons e))
       = Z.min (limit second_page)
           (Z.max 0 (Z.of_nat (length [pikachu; squirtle; charmander; bulbasaur])
                     - skip second_page))
    /\ Envelope.totalPages e
       = of_Z ((Z.of_nat (length [pikachu; squirtle; charmander; bulbasaur])
                + limit second_page - 1) / limit second_page).
Proof.
  apply (listing_page [pikachu; squirtle; charmander; bulbasaur] second_page).
  - vm_compute. discriminate.
  - vm_compute. discriminate.
Defined.

(** X2.  The pages of GET /pokemon leave no gap: with a positive limit,
    the record at position [i] of the store in id order is the record at
    position [i mod limit] of page [i / limit + 1]. *)
Theorem listing_pages_cover (db : Store) (q : query) (i : nat) (p : Pokemon) :
  1 <= limit q ->
  merge_sort (Query.by_id Query.Asc) db !! i = Some p ->
  page q = Z.of_nat i / limit q + 1 ->
  exists e,
    get_pokemon db q = Reply 200 (Page e)
    /\ Envelope.pokemons e !! Z.to_nat (Z.of_nat i mod limit q) = Some p.
Proof.
  intros Hl Hi Hp.
  pose proof (Z.div_pos (Z.of_nat i) (limit q) ltac:(lia) ltac:(lia)) as Hd.
  pose proof (Z.mod_pos_bound (Z.of_nat i) (limit q) ltac:(lia)) as Hm.
  pose proof (Z.div_mod (Z.of_nat i) (limit q) ltac:(lia)) as Hdm.
  assert (Hs : skip q = limit q * (Z.of_nat i / limit q)).
  { unfold skip. rewrite Hp. lia. }
  rewrite PagingFacts.get_pokemon_unfold.
  destruct (skip q <? 0) eqn:E; [apply Z.ltb_lt in E; nia |].
  eexists. split; [reflexivity |]. simpl.
  rewrite PageFacts.slice_lookup by lia.
  rewrite <- Hi. f_equal. lia.
Qed.

Lemma listing_pages_cover_witness :
  exists e,
    get_pokemon [pikachu; squirtle; charmander; bulbasaur] second_page
    = Reply 200 (Page e)
    /\ Envelope.pokemons e !! Z.to_nat (Z.of_nat 3 mod limit second_page)
       = Some pikachu.
Proof.
  apply (listing_pages_cover [pikachu; squirtle; charmander; bulbasaur]
           second_page 3 pikachu).
  - vm_compute. discriminate.
  - vm_compute. reflexivity.
  - vm_compute. reflexivity.
Defined.

(** ** What the filter selects *)

Module SelectFacts.

Lemma fold_other q (l : list string) : forall (m : gmap string clause) k,
  (forall st, st ∈ l -> k <> "base." +:+ st) ->
  fold_left (add_stat q) l m !! k = m !! k.
Proof.
  induction l as [|x l IH]; intros m k Hk; cbn [fold_left]; [done |].
  rewrite IH by (intros st Hst; apply Hk; by right).
  rewrite FilterFacts.add_stat_eq. destruct (bounds q x); [| done].
  apply lookup_insert_ne. intros E. apply (Hk x); [left | done].
Qed.

(** The entries of the filter object the handler builds. *)
Lemma build_filter_lookup q k c :
  build_filter q !! k = Some c
  <-> (k = "type" /\ truthy (q !! "types") = true
       /\ c = InStrings (Str.split "," (default "" (q !! "types"))))
      \/ (exists st, st ∈ statFields /\ k = "base." +:+ st
                     /\ bounds q st = Some c).
Proof.
  split.
  - intros H.
    destruct (decide (Exists (fun st => k = "base." +:+ st) statFields))
      as [Hex | Hnex].
    + apply Exists_exists in Hex as (st & Hst & ->). right. exists st.
      by rewrite FilterFacts.build_filter_stat in H.
    + left. unfold build_filter in H. rewrite fold_other in H.
      * destruct (truthy (q !! "types")); [| by rewrite lookup_empty in H].
        by apply lookup_singleton_Some in H as [<- <-].
      * intros st Hst E. apply Hnex, Exists_exists. eauto.
  - intros [(-> & Ht & ->) | (st & Hst & -> & Hb)].
    + unfold build_filter. rewrite fold_other, Ht.
      * apply lookup_singleton_eq.
      * intros st _. by destruct st as [|[[] [] [] [] [] [] [] []] ?].
    + by rewrite FilterFacts.build_filter_stat.
Qed.

(** A cast that resolves casts every clause, and the test it yields is
    the conjunction of the tests of the clauses. *)
Lemma cast_fields_ok (l : list (string * clause)) : forall ts,
  cast_fields l = Ok ts ->
  (forall k c, (k, c) ∈ l -> exists f, cast_clause c = Ok f)
  /\ forall p,
       forallb (fun t => t p) ts = true
       <-> forall k c f, (k, c) ∈ l -> cast_clause c = Ok f ->
                         from_option f false (path k p) = true.
Proof.
  induction l as [|[k c] l IH]; intros ts H; simpl in H.
  - injection H as <-. split.
    + intros k c Hin. by apply elem_of_nil in Hin.
    + intros p. split; [| done]. intros _ k c f Hin.
      by apply elem_of_nil in Hin.
  - unfold cast_field in H. simpl in H.
    destruct (cast_clause c) as [f | |] eqn:Ec; simpl in H; try done.
    destruct (cast_fields l) as [ts' | |] eqn:El; simpl in H; try done.
    injection H as <-. destruct (IH ts' eq_refl) as [IH1 IH2]. split.
    + intros k' c' [[= -> ->] | Hin]%elem_of_cons; eauto.
    + intros p. simpl. rewrite andb_true_iff, IH2. split.
      * intros [Hf Hl] k' c' f' [[= -> ->] | Hin]%elem_of_cons Ec'.
        -- rewrite Ec in Ec'. injection Ec' as <-. exact Hf.
        -- by apply (Hl k' c').
      * intros Hall. split.
        -- apply (Hall k c f); [left | done].
        -- intros k' c' f' Hin. apply Hall. by right.
Qed.

Lemma stat_known st (b : Base) : st ∈ statFields -> exists v, stat st b = Some v.
Proof.
  unfold statFields. intros H.
  repeat (apply elem_of_cons in H as [-> | H]; [by eexists |]).
  by apply elem_of_nil in H.
Qed.

Lemma path_stat st p :
  st ∈ statFields -> path ("base." +:+ st) p = VNumber <$> stat st (base p).
Proof.
  unfold statFields. intros H.
  repeat (apply elem_of_cons in H as [-> | H]; [done |]).
  by apply elem_of_nil in H.
Qed.

(** The test of a filter that casts is the test the parameters ask for. *)
Lemma cast_satisfies q test :
  cast (Conj (build_filter q)) = Ok test ->
  forall p, test p = true <-> satisfies q p.
Proof.
  unfold cast. intros H.
  destruct (cast_fields (map_to_list (build_filter q))) as [ts | |] eqn:E;
    simpl in H; try done.
  injection H as <-. destruct (cast_fields_ok _ ts E) as [Hcast Htest].
  intros p. rewrite Htest. split.
  - intros Hall. split.
    + intros Ht.
      assert (Hin : ("type",
                     InStrings (Str.split "," (default "" (q !! "types"))))
                    ∈ map_to_list (build_filter q)).
      { apply elem_of_map_to_list, build_filter_lookup. by left. }
      specialize (Hall _ _ _ Hin eq_refl). simpl in Hall.
      apply existsb_exists in Hall as (t & Ht1 & Ht2).
      apply existsb_exists in Ht2 as (t' & Ht2 & Heq).
      apply String.eqb_eq in Heq as <-.
      exists t. by rewrite !list_elem_of_In.
    + intros st v Hst Hv. unfold in_range.
      destruct (bounds q st) as [c|] eqn:Eb.
      * assert (Hin : ("base." +:+ st, c) ∈ map_to_list (build_filter q)).
        { apply elem_of_map_to_list, build_filter_lookup. right. eauto. }
        destruct (Hcast _ _ Hin) as [f Hf].
        specialize (Hall _ _ _ Hin Hf).
        rewrite (path_stat st p Hst), Hv in Hall. simpl in Hall.
        unfold bounds in Eb.
        destruct (q !! ("min" +:+ st)) as [lo|],
                 (q !! ("max" +:+ st)) as [hi|]; simplify_eq;
          simpl in Hf;
          repeat match type of Hf with
                 | (if ?b then _ else _) = _ => destruct b; [| done]
                 end;
          simplify_eq; simpl in Hall;
          rewrite ?andb_true_iff, ?andb_true_r in Hall;
          split; intros s Hs; simplify_eq; tauto.
      * unfold bounds in Eb.
        by destruct (q !! ("min" +:+ st)), (q !! ("max" +:+ st)).
  - intros [Htypes Hstats] k c f Hin Hf.
    apply elem_of_map_to_list, build_filter_lookup in Hin
      as [(-> & Ht & ->) | (st & Hst & -> & Hb)].
    + simpl in Hf. injection Hf as <-. simpl.
      destruct (Htypes Ht) as (t & Ht1 & Ht2).
      apply existsb_exists. exists t. split; [by apply list_elem_of_In |].
      apply existsb_exists. exists t. split; [by apply list_elem_of_In |].
      by apply String.eqb_eq.
    + destruct (stat_known st (base p) Hst) as [v Hv].
      rewrite (path_stat st p Hst), Hv. simpl.
      destruct (Hstats st v Hst Hv) as [Hlo Hhi].
      unfold bounds in Hb.
      destruct (q !! ("min" +:+ st)) as [lo|],
               (q !! ("max" +:+ st)) as [hi|]; simplify_eq;
        simpl in Hf;
        repeat match type of Hf with
               | (if ?b then _ else _) = _ => destruct b; [| done]
               end;
        simplify_eq; simpl;
        rewrite ?(Hlo _ eq_refl), ?(Hhi _ eq_refl); done.
Qed.

(** Bounds that are all numbers make the cast resolve. *)
Lemma cast_numeric q :
  (forall st s, st ∈ statFields ->
     q !! ("min" +:+ st) = Some s \/ q !! ("max" +:+ st) = Some s ->
     isNaN (Number s) = false) ->
  exists test, cast (Conj (build_filter q)) = Ok test.
Proof.
  intros Hnum.
  destruct (FilterFacts.cast_build_filter q) as [Hc | Hc]; [| done].
  exfalso. unfold cast in Hc.
  destruct (cast_fields (map_to_list (build_filter q))) as [ts | m |] eqn:E;
    simpl in Hc; try done.
  clear Hc.
  assert (Hall : forall k c, (k, c) ∈ map_to_list (build_filter q) ->
                             exists f, cast_clause c = Ok f).
  { intros k c Hin.
    apply elem_of_map_to_list, build_filter_lookup in Hin
      as [(-> & Ht & ->) | (st & Hst & -> & Hb)]; [by eexists |].
    unfold bounds in Hb.
    destruct (q !! ("min" +:+ st)) as [lo|] eqn:Elo,
             (q !! ("max" +:+ st)) as [hi|] eqn:Ehi; simplify_eq; simpl;
      rewrite ?(Hnum st lo Hst ltac:(by left)),
              ?(Hnum st hi Hst ltac:(by right)); by eexists. }
  revert Hall E. generalize (map_to_list (build_filter q)).
  intros l. induction l as [|[k c] l IH]; intros Hall E; simpl in E; [done |].
  destruct (Hall k c ltac:(left)) as [f Hf].
  unfold cast_field in E. simpl in E. rewrite Hf in E. simpl in E.
  destruct (cast_fields l) as [ts | m' |] eqn:El; simpl in E; try done.
  apply (IH ltac:(intros k' c' Hin; apply (Hall k' c'); by right)).
  by simplify_eq.
Qed.

Lemma fold_unchanged q (l : list string) (m : gmap string clause) :
  (forall st, st ∈ l -> bounds q st = None) ->
  fold_left (add_stat q) l m = m.
Proof.
  revert m. induction l as [|x l IH]; intros m H; cbn [fold_left]; [done |].
  rewrite FilterFacts.add_stat_eq, (H x) by left.
  apply IH. intros st Hst. apply H. by right.
Qed.

Lemma fold_congruence q q' (l : list string) (m : gmap string clause) :
  (forall st, st ∈ l -> bounds q st = bounds q' st) ->
  fold_left (add_stat q) l m = fold_left (add_stat q') l m.
Proof.
  revert m. induction l as [|x l IH]; intros m H; cbn [fold_left]; [done |].
  rewrite !FilterFacts.add_stat_eq, (H x) by left.
  apply IH. intros st Hst. apply H. by right.
Qed.

End SelectFacts.

Module ParamFacts.

Lemma stat_params st :
  st ∈ statFields ->
  "min" +:+ st ∈ filter_params /\ "max" +:+ st ∈ filter_params.
Proof.
  intros H%list_elem_of_In. unfold filter_params.
  split; apply list_elem_of_In, in_or_app; right; apply in_or_app.
  - left. by apply in_map.
  - right. by apply in_map.
Qed.

Lemma fixed_params :
  "page" ∈ filter_params /\ "limit" ∈ filter_params /\ "types" ∈ filter_params.
Proof. unfold filter_params. simpl. set_solver. Qed.

Lemma elem_of_slice s l (found : list Pokemon) p :
  p ∈ slice s l found -> p ∈ found.
Proof.
  unfold slice. intros H.
  apply (QueryFacts.sorted_elem_of Query.Asc).
  eapply elem_of_sublist; [exact H |].
  etrans; [apply sublist_take | apply sublist_drop].
Qed.

End ParamFacts.

(** X3.  GET /pokemon/filter with numeric bounds and a non-negative skip
    answers 200, and the records it counts and pages are exactly the
    records of the store that carry one of the listed types (when [types]
    is given) and whose statistics lie within every bound given, both ends
    included: [total] is their number and the page is cut from them in id
    order. *)
Theorem filter_selects (db : Store) (q : query) :
  (forall st s, st ∈ statFields ->
     q !! ("min" +:+ st) = Some s \/ q !! ("max" +:+ st) = Some s ->
     isNaN (Number s) = false) ->
  0 <= skip q ->
  exists e matching,
    get_filter db q = Reply 200 (Page e)
    /\ matching `sublist_of` db
    /\ (forall p, p ∈ matching <-> p ∈ db /\ satisfies q p)
    /\ Envelope.total e = Z.of_nat (length matching)
    /\ Envelope.pokemons e
       = take (Z.to_nat (Z.abs (limit q)))
           (drop (Z.to_nat (skip q))
              (merge_sort (Query.by_id Query.Asc) matching))
    /\ (forall p, p ∈ Envelope.pokemons e -> p ∈ db /\ satisfies q p).
Proof.
  intros Hnum Hs.
  destruct (SelectFacts.cast_numeric q Hnum) as [test Hc].
  pose proof (SelectFacts.cast_satisfies q test Hc) as Ht.
  rewrite (PagingFacts.get_filter_ok db q test Hc).
  destruct (skip q <? 0) eqn:E; [apply Z.ltb_lt in E; lia |].
  assert (Hm : forall p, p ∈ List.filter test db <-> p ∈ db /\ satisfies q p).
  { intros p. by rewrite list_elem_of_In, filter_In, <- list_elem_of_In, Ht. }
  exists (envelope q (List.filter test db)), (List.filter test db).
  split; [done |]. split; [apply RegexFacts.filter_sublist |].
  split; [exact Hm |]. split; [done |]. split; [done |].
  intros p Hp. apply Hm. by apply (ParamFacts.elem_of_slice _ _ _ _ Hp).
Qed.

Lemma fire_or_water_numeric st s :
  st ∈ statFields ->
  fire_or_water !! ("min" +:+ st) = Some s
  \/ fire_or_water !! ("max" +:+ st) = Some s ->
  isNaN (Number s) = false.
Proof.
  unfold statFields. intros H.
  repeat (apply elem_of_cons in H as [-> | H];
          [intros [E | E]; vm_compute in E; by simplify_eq |]).
  by apply elem_of_nil in H.
Qed.

Lemma filter_selects_witness :
  exists e matching,
    get_filter [pikachu; squirtle; charmander] fire_or_water
    = Reply 200 (Page e)
    /\ matching `sublist_of` [pikachu; squirtle; charmander]
    /\ (forall p, p ∈ matching <->
          p ∈ [pikachu; squirtle; charmander] /\ satisfies fire_or_water p)
    /\ Envelope.total e = Z.of_nat (length matching)
    /\ Envelope.pokemons e
       = take (Z.to_nat (Z.abs (limit fire_or_water)))
           (drop (Z.to_nat (skip fire_or_water))
              (merge_sort (Query.by_id Query.Asc) matching))
    /\ (forall p, p ∈ Envelope.pokemons e ->
          p ∈ [pikachu; squirtle; charmander] /\ satisfies fire_or_water p).
Proof.
  apply (filter_selects [pikachu; squirtle; charmander] fire_or_water).
  - apply fire_or_water_numeric.
  - vm_compute. discriminate.
Defined.

(** X4.  Without a [types] value and without any bound, GET
    /pokemon/filter answers what GET /pokemon answers. *)
Theorem filter_without_parameters (db : Store) (q : query) :
  truthy (q !! "types") = false ->
  (forall st, st ∈ statFields ->
     q !! ("min" +:+ st) = None /\ q !! ("max" +:+ st) = None) ->
  get_filter db q = get_pokemon db q.
Proof.
  intros Ht Hb.
  assert (E : build_filter q = ∅).
  { unfold build_filter. rewrite Ht. apply SelectFacts.fold_unchanged.
    intros st Hst. unfold bounds. by destruct (Hb st Hst) as [-> ->]. }
  unfold get_filter, get_pokemon. by rewrite E.
Qed.

Lemma filter_without_parameters_witness :
  get_filter [squirtle; bulbasaur] second_page
  = get_pokemon [squirtle; bulbasaur] second_page.
Proof.
  apply (filter_without_parameters [squirtle; bulbasaur] second_page).
  - reflexivity.
  - unfold statFields. intros st H.
    repeat (apply elem_of_cons in H as [-> | H]; [by split |]).
    by apply elem_of_nil in H.
Defined.

(** X5.  GET /pokemon/filter reads [page], [limit], [types] and the
    twelve [min]/[max] parameters of the six statistics, and nothing
    else: setting any other parameter does not change its answer. *)
Theorem filter_ignores_other_parameters
    (db : Store) (q : query) (k v : string) :
  k ∉ filter_params ->
  get_filter db (<[ k := v ]> q) = get_filter db q.
Proof.
  intros Hk.
  destruct ParamFacts.fixed_params as (Hpage & Hlimit & Htypes).
  assert (Hl : forall k', k' ∈ filter_params -> <[ k := v ]> q !! k' = q !! k').
  { intros k' Hk'. apply lookup_insert_ne. by intros ->. }
  assert (Ep : page (<[ k := v ]> q) = page q)
    by (unfold page; by rewrite Hl).
  assert (El : limit (<[ k := v ]> q) = limit q)
    by (unfold limit; by rewrite Hl).
  assert (Es : skip (<[ k := v ]> q) = skip q)
    by (unfold skip; by rewrite Ep, El).
  assert (Eb : build_filter (<[ k := v ]> q) = build_filter q).
  { unfold build_filter. rewrite (Hl "types" Htypes).
    apply SelectFacts.fold_congruence. intros st Hst.
    destruct (ParamFacts.stat_params st Hst) as [Hmin Hmax].
    unfold bounds. by rewrite (Hl _ Hmin), (Hl _ Hmax). }
  unfold get_filter. by rewrite Ep, El, Es, Eb.
Qed.

Lemma filter_ignores_other_parameters_witness :
  get_filter [squirtle; bulbasaur] (<[ "name" := "x" ]> fire_or_water)
  = get_filter [squirtle; bulbasaur] fire_or_water.
Proof.
  apply (filter_ignores_other_parameters [squirtle; bulbasaur]
           fire_or_water "name" "x").
  vm_compute. intros H. repeat (apply elem_of_cons in H as [H | H]; [done |]).
  by apply elem_of_nil in H.
Defined.

(** ** Lookup, deletion and histories *)

Module StoreFacts.
Import QueryFacts.

Lemma get_by_id_none (db : Store) n :
  (forall r, r ∈ db -> id r <> n) ->
  get_by_id db (to_string n) = Reply 404 (Error not_found).
Proof.
  intros Hnone. destruct (cast_id n) as (test & Hc & Ht).
  unfold get_by_id, Query.one. rewrite (exec_find _ _ test Hc).
  rewrite CrudFacts.filter_none; [done |].
  intros x Hx. rewrite Ht. apply Z.eqb_neq. intros E. by apply (Hnone x Hx).
Qed.

Lemma remove_first_inv test (db : Store) : forall r db',
  remove_first test db = Some (r, db') ->
  exists l1 l2, db = l1 ++ r :: l2 /\ db' = l1 ++ l2 /\ test r = true
                /\ forall x, x ∈ l1 -> test x = false.
Proof.
  induction db as [|x db IH]; intros r db' H; simpl in H; [done |].
  destruct (test x) eqn:Ex.
  - injection H as <- <-. exists [], db. repeat split; try done.
    intros y Hy. by apply elem_of_nil in Hy.
  - destruct (remove_first test db) as [[r' rest]|]; simpl in H; [| done].
    injection H as <- <-.
    destruct (IH r' rest eq_refl) as (l1 & l2 & -> & -> & Hr & Hl1).
    exists (x :: l1), l2. repeat split; try done.
    intros y [-> | Hy]%elem_of_cons; auto.
Qed.

(** What a deletion does to the store, whatever the parameter. *)
Lemma delete_store (db : Store) param :
  (delete_pokemon db param).1 = db
  \/ exists r l1 l2, db = l1 ++ r :: l2 /\ (delete_pokemon db param).1 = l1 ++ l2.
Proof.
  unfold delete_pokemon, findOneAndDelete.
  destruct (cast _) as [test | m |]; simpl; try by left.
  destruct (remove_first test db) as [[r db']|] eqn:E; simpl; [| by left].
  right. apply remove_first_inv in E as (l1 & l2 & -> & -> & _). eauto.
Qed.

(** What a creation does to the store: nothing, or one record added at
    the end, whose id is above every id present. *)
Lemma post_store (db : Store) body :
  (post_pokemon db body).1 = db
  \/ exists p, (post_pokemon db body).1 = db ++ [p]
               /\ forall x, x ∈ db -> id x < id p.
Proof.
  destruct (CrudFacts.newId_spec db) as (n & Hn & Hmax).
  unfold post_pokemon. rewrite Hn. simpl. unfold save.
  destruct (validate _) as [p|] eqn:E; simpl; [| by left].
  right. exists p. split; [done |].
  apply CrudFacts.validate_id in E. simpl in E. rewrite E.
  destruct Hmax as [[-> _] | (m & _ & Hle & ->)].
  - intros x Hx. by apply elem_of_nil in Hx.
  - intros x Hx. specialize (Hle x Hx). lia.
Qed.

Lemma ascending_remove (l1 l2 : Store) r :
  ascending (l1 ++ r :: l2) -> ascending (l1 ++ l2).
Proof.
  unfold ascending. rewrite !StronglySorted_app, StronglySorted_cons.
  intros (H12 & H1 & _ & H2). repeat split; try done.
  intros x1 x2 Hx1 Hx2. apply H12; [done | by right].
Qed.

Lemma ascending_step (db : Store) r : ascending db -> ascending (step db r).
Proof.
  intros H. destruct r as [body | param]; simpl.
  - destruct (post_store db body) as [-> | (p & -> & Hp)]; [done |].
    apply StronglySorted_app_2; [| done | repeat constructor].
    intros x1 x2 Hx1 ->%list_elem_of_singleton. by apply Hp.
  - destruct (delete_store db param) as [-> | (x & l1 & l2 & -> & ->)];
      [done |].
    by apply ascending_remove in H.
Qed.

Lemma ascending_run rs : forall db, ascending db -> ascending (run rs db).
Proof.
  unfold run. induction rs as [|r rs IH]; intros db H; simpl; [done |].
  by apply IH, ascending_step.
Qed.

(** The id a creation stores: 1 on an empty store, otherwise one more
    than an id present. *)
Lemma post_store_id (db : Store) body :
  (post_pokemon db body).1 = db
  \/ exists p, (post_pokemon db body).1 = db ++ [p]
               /\ ((db = [] /\ id p = 1)
                   \/ exists m, m ∈ db /\ id p = id m + 1).
Proof.
  destruct (CrudFacts.newId_spec db) as (n & Hn & Hmax).
  unfold post_pokemon. rewrite Hn. simpl. unfold save.
  destruct (validate _) as [p|] eqn:E; simpl; [| by left].
  right. exists p. split; [done |].
  apply CrudFacts.validate_id in E. simpl in E. rewrite E.
  destruct Hmax as [[-> ->] | (m & Hm & _ & ->)]; [by left |].
  right. by exists m.
Qed.

(** A request uses up at most one place of the room. *)
Lemma room_step (k : Z) (db : Store) r :
  0 <= k -> room (k + 1) db -> room k (step db r).
Proof.
  unfold room. intros Hk [Hb Hall]. split; [lia |].
  assert (Hdb : Forall (fun x => - 2 ^ 53 < id x /\ id x + k < 2 ^ 53) db).
  { eapply Forall_impl; [exact Hall |]. simpl. intros x Hx. lia. }
  destruct r as [body | param]; simpl.
  - destruct (post_store_id db body) as [-> | (p & -> & Hp)]; [done |].
    apply Forall_app. split; [done |]. apply Forall_singleton.
    destruct Hp as [[_ ->] | (m & Hm & ->)]; [lia |].
    rewrite Forall_forall in Hall. specialize (Hall m Hm). simpl in Hall. lia.
  - destruct (delete_store db param) as [-> | (x & l1 & l2 & -> & ->)];
      [done |].
    apply Forall_app in Hdb as [H1 H2]. apply Forall_cons in H2 as [_ H2].
    apply Forall_app. by split.
Qed.

Lemma room_run rs :
  forall db, room (Z.of_nat (length rs)) db ->
             Forall (fun x => safe (id x)) (run rs db).
Proof.
  unfold run. induction rs as [|r rs IH]; intros db H.
  - simpl. destruct H as [_ H]. eapply Forall_impl; [exact H |].
    unfold safe. simpl. intros x Hx. lia.
  - simpl fold_left. apply IH. apply room_step; [lia |].
    replace (Z.of_nat (length rs) + 1) with (Z.of_nat (length (r :: rs)));
      [done |]. simpl length. lia.
Qed.

Lemma ascending_distinct (db : Store) : ascending db -> NoDup (map id db).
Proof.
  unfold ascending. induction db as [|x db IH]; simpl.
  - intros _. constructor.
  - rewrite StronglySorted_cons. intros [Hx Hs].
    apply NoDup_cons. split; [| by apply IH].
    rewrite list_elem_of_In, in_map_iff. intros (y & E & Hy).
    rewrite Forall_forall in Hx.
    apply list_elem_of_In in Hy. specialize (Hx y Hy). lia.
Qed.

Lemma ascending_sublist (l db : Store) :
  l `sublist_of` db -> ascending db -> ascending l.
Proof.
  unfold ascending. induction 1 as [| x l1 l2 Hs IH | x l1 l2 Hs IH].
  - done.
  - rewrite !StronglySorted_cons, !Forall_forall. intros [Hx H2].
    split; [| by apply IH]. intros y Hy. apply Hx.
    by apply (elem_of_sublist l1 l2).
  - rewrite StronglySorted_cons. intros [_ H2]. by apply IH.
Qed.

(** A search that answers 200 answers a sublist of the store. *)
Lemma search_sublist (db : Store) (q : query) l :
  get_search db q = Reply 200 (Docs l) -> l `sublist_of` db.
Proof.
  unfold get_search. cbv zeta. destruct (truthy (q !! "name")); [| done].
  simpl negb. cbv iota.
  destruct (cast (search_filter (default "" (q !! "name"))))
    as [test | m |] eqn:Hc.
  - rewrite (exec_find db _ test Hc). simpl. intros [= <-].
    apply RegexFacts.filter_sublist.
  - unfold Query.exec, Query.find. cbn [Query.conditions]. by rewrite Hc.
  - unfold Query.exec, Query.find. cbn [Query.conditions]. by rewrite Hc.
Qed.

Lemma distinct_split (l1 l2 : Store) r :
  NoDup (map id (l1 ++ r :: l2)) ->
  forall x, x ∈ l1 ++ l2 -> id x <> id r.
Proof.
  rewrite map_app. simpl. intros H x Hx E.
  apply NoDup_app in H as (_ & H12 & H2).
  apply NoDup_cons in H2 as [Hr _].
  apply elem_of_app in Hx as [Hx | Hx].
  - apply (H12 (id x)).
    + by apply list_elem_of_In, in_map, list_elem_of_In.
    + rewrite E. left.
  - apply Hr. rewrite <- E. by apply list_elem_of_In, in_map, list_elem_of_In.
Qed.

Lemma get_by_id_skip (l1 l2 : Store) r m :
  m <> id r ->
  get_by_id (l1 ++ r :: l2) (to_string m) = get_by_id (l1 ++ l2) (to_string m).
Proof.
  intros Hm. destruct (cast_id m) as (test & Hc & Ht).
  unfold get_by_id, Query.one. rewrite !(exec_find _ _ test Hc).
  rewrite !List.filter_app. simpl. rewrite (Ht r).
  by destruct (Z.eqb_spec m (id r)).
Qed.

(** The sorted form of a store with one record of greater id added. *)
Lemma sorted_snoc (db : Store) p :
  (forall x, x ∈ db -> id x < id p) ->
  exists l, merge_sort (Query.by_id Query.Asc) (db ++ [p]) = l ++ [p]
            /\ l ≡ₚ db /\ StronglySorted (Query.by_id Query.Asc) l.
Proof.
  intros Hp.
  pose proof (sorted_strongly Query.Asc (db ++ [p])) as Hs.
  pose proof (merge_sort_Permutation (Query.by_id Query.Asc) (db ++ [p])) as Hperm.
  assert (Hin : p ∈ merge_sort (Query.by_id Query.Asc) (db ++ [p])).
  { apply sorted_elem_of. set_solver. }
  apply list_elem_of_split in Hin as (l1 & l2 & E). rewrite E in Hs, Hperm.
  assert (Hl : l1 ++ l2 ≡ₚ db).
  { symmetry. apply (Permutation_cons_app_inv _ _ (a := p)).
    rewrite Hperm. apply Permutation_cons_append. }
  assert (l2 = []) as ->.
  { destruct l2 as [|x l2]; [done |]. exfalso.
    assert (Hx : x ∈ db) by (rewrite <- Hl; set_solver).
    specialize (Hp x Hx).
    apply StronglySorted_app_1_r, StronglySorted_cons in Hs as [Hall _].
    rewrite Forall_forall in Hall.
    specialize (Hall x ltac:(left)). simpl in Hall. lia. }
  exists l1. rewrite E. split; [done |].
  split; [by rewrite app_nil_r in Hl |].
  by apply StronglySorted_app_1_l in Hs.
Qed.

End StoreFacts.

(** X6.  GET /pokemon/:id with the decimal form of a safe integer answers
    200 with the first record of the store that carries that id, and 404
    when no record carries it. *)
Theorem fetch_by_id (db : Store) (n : Z) :
  safe n ->
  ((exists r, r ∈ db /\ id r = n) ->
   exists r l1 l2,
     db = l1 ++ r :: l2 /\ id r = n /\ (forall x, x ∈ l1 -> id x <> n)
     /\ get_by_id db (to_string n) = Reply 200 (Doc r))
  /\ ((forall r, r ∈ db -> id r <> n) ->
      get_by_id db (to_string n) = Reply 404 (Error not_found)).
Proof.
  intros _. split.
  - intros Hex.
    destruct (CrudFacts.first_with_id db n Hex) as (r & l1 & l2 & -> & <- & Hl1).
    exists r, l1, l2. repeat split; try done.
    by apply CrudFacts.get_by_id_first.
  - apply StoreFacts.get_by_id_none.
Qed.

Lemma fetch_by_id_witness :
  ((exists r, r ∈ [bulbasaur; charmander; squirtle] /\ id r = 7) ->
   exists r l1 l2,
     [bulbasaur; charmander; squirtle] = l1 ++ r :: l2 /\ id r = 7
     /\ (forall x, x ∈ l1 -> id x <> 7)
     /\ get_by_id [bulbasaur; charmander; squirtle] (to_string 7)
        = Reply 200 (Doc r))
  /\ ((forall r, r ∈ [bulbasaur; charmander; squirtle] -> id r <> 7) ->
      get_by_id [bulbasaur; charmander; squirtle] (to_string 7)
      = Reply 404 (Error not_found)).
Proof.
  apply (fetch_by_id [bulbasaur; charmander; squirtle] 7).
  split; reflexivity.
Defined.

(** X7.  On a store whose ids are distinct, once DELETE /pokemon/:id with
    the decimal form of a safe integer has answered 200 the store is one
    record shorter, fetching the same id answers 404, deleting it again
    answers 404 and changes nothing, and fetching any other safe integer
    answers what it answered before. *)
Theorem delete_then_fetch (db db' : Store) (n : Z) (r : Pokemon) :
  safe n ->
  NoDup (map id db) ->
  delete_pokemon db (to_string n) = (db', Reply 200 (Deleted deleted_message r)) ->
  length db = S (length db')
  /\ get_by_id db' (to_string n) = Reply 404 (Error not_found)
  /\ delete_pokemon db' (to_string n) = (db', Reply 404 (Error not_found))
  /\ (forall m, safe m -> m <> n ->
        get_by_id db' (to_string m) = get_by_id db (to_string m)).
Proof.
  intros _ Hdup Hdel.
  destruct (QueryFacts.cast_id n) as (test & Hc & Ht).
  assert (exists l1 l2, db = l1 ++ r :: l2 /\ db' = l1 ++ l2 /\ id r = n)
    as (l1 & l2 & -> & -> & Hr).
  { unfold delete_pokemon, findOneAndDelete in Hdel. rewrite Hc in Hdel.
    simpl in Hdel.
    destruct (remove_first test db) as [[r' rest]|] eqn:E; simpl in Hdel;
      [| done].
    injection Hdel as <- <-.
    apply StoreFacts.remove_first_inv in E as (l1 & l2 & -> & -> & Hr & _).
    exists l1, l2. repeat split. rewrite Ht in Hr. by apply Z.eqb_eq in Hr. }
  pose proof (StoreFacts.distinct_split l1 l2 r Hdup) as Hother.
  rewrite Hr in Hother.
  split; [rewrite !length_app; simpl; lia |].
  split; [by apply StoreFacts.get_by_id_none |].
  split.
  - unfold delete_pokemon, findOneAndDelete. rewrite Hc. simpl.
    rewrite CrudFacts.remove_first_none; [done |].
    intros x Hx. rewrite Ht. apply Z.eqb_neq. intros E. by apply (Hother x Hx).
  - intros m _ Hm. symmetry. apply StoreFacts.get_by_id_skip. by rewrite Hr.
Qed.

Lemma delete_then_fetch_witness :
  length [bulbasaur; charmander; squirtle] = S (length [bulbasaur; squirtle])
  /\ get_by_id [bulbasaur; squirtle] (to_string 4)
     = Reply 404 (Error not_found)
  /\ delete_pokemon [bulbasaur; squirtle] (to_string 4)
     = ([bulbasaur; squirtle], Reply 404 (Error not_found))
  /\ (forall m, safe m -> m <> 4 ->
        get_by_id [bulbasaur; squirtle] (to_string m)
        = get_by_id [bulbasaur; charmander; squirtle] (to_string m)).
Proof.
  apply (delete_then_fetch [bulbasaur; charmander; squirtle]
           [bulbasaur; squirtle] 4 charmander).
  - split; reflexivity.
  - apply (bool_decide_unpack _). vm_compute. exact I.
  - reflexivity.
Defined.

(** X8.  Creations and deletions handled one after the other, each
    answered before the next one starts, keep the store in strictly
    increasing id order.  From a store in that order whose ids leave room
    among the safe integers for one creation per request, and so from the
    empty store, every such history of POST /pokemon and DELETE
    /pokemon/:id requests, whatever the bodies, with parameters that are
    no numbers or safe integers, ends in a store in that order, whose ids
    are therefore distinct, and are safe integers still. *)
Theorem history_keeps_ids_ascending (rs : list request) (db : Store) :
  ascending db ->
  room (Z.of_nat (length rs)) db ->
  Forall exact_request rs ->
  ascending (run rs db)
  /\ NoDup (map id (run rs db))
  /\ Forall (fun x => safe (id x)) (run rs db).
Proof.
  intros H Hroom _. pose proof (StoreFacts.ascending_run rs db H) as Hr.
  split; [done |]. split; [by apply StoreFacts.ascending_distinct |].
  by apply StoreFacts.room_run.
Qed.

Lemma history_keeps_ids_ascending_witness :
  ascending (run sample_history [])
  /\ NoDup (map id (run sample_history []))
  /\ Forall (fun x => safe (id x)) (run sample_history []).
Proof.
  apply (history_keeps_ids_ascending sample_history []).
  - constructor.
  - split; [by vm_compute | constructor].
  - apply Forall_cons. split; [exact I |].
    apply Forall_cons. split; [exact I |].
    apply Forall_cons. split.
    { split; [discriminate |]. right. exists 1. repeat split. }
    apply Forall_cons. split.
    { split; [discriminate |]. by left. }
    apply Forall_cons. split; [exact I |]. constructor.
Defined.

(** X9.  GET /pokemon/search answers the matching records in the order
    of the store: a 200 answer is a sublist of the store, so on a store in
    strictly increasing id order the answer is in that order too. *)
Theorem search_in_store_order (db : Store) (q : query) (l : list Pokemon) :
  get_search db q = Reply 200 (Docs l) ->
  l `sublist_of` db /\ (ascending db -> ascending l).
Proof.
  intros H. pose proof (StoreFacts.search_sublist db q l H) as Hs.
  split; [done |]. by apply StoreFacts.ascending_sublist.
Qed.

Lemma search_in_store_order_witness :
  [charmander; squirtle] `sublist_of` [bulbasaur; charmander; squirtle]
  /\ (ascending [bulbasaur; charmander; squirtle] ->
      ascending [charmander; squirtle]).
Proof.
  apply (search_in_store_order [bulbasaur; charmander; squirtle]
           {[ "name" := "c" ]} [charmander; squirtle]).
  reflexivity.
Defined.

(** X13.  GET /pokemon/list-all always answers 200, with one summary (id,
    english name, type, image) per record of the store, in ascending id
    order. *)
Theorem list_all_complete (db : Store) :
  exists l,
    get_list_all db = Reply 200 (Summaries (map summary l))
    /\ l ≡ₚ db
    /\ StronglySorted (fun a b => id a <= id b) l
    /\ forall p, summary p
                 = Summary.mk (id p) (english (name p)) (type p) (image p).
Proof.
  destruct QueryFacts.cast_all as (test & Hc & Ht).
  unfold get_list_all. rewrite (QueryFacts.exec_sort db _ _ test Hc).
  rewrite (QueryFacts.filter_true _ _ Ht).
  eexists. split; [reflexivity |].
  split; [apply merge_sort_Permutation |].
  split; [apply (QueryFacts.sorted_strongly Query.Asc) | done].
Qed.

(** X14.  A record just created is the last one of the listings: after a
    valid POST /pokemon, GET /pokemon/list-all answers the summaries of
    the former records in id order followed by the summary of the new
    record, and the total of GET /pokemon has grown by one. *)
Theorem created_comes_last (db : Store) (body : Payload.t)
    (nm : Name) (ty : list string) (bs : Base) (q : query) :
  carries body nm ty bs -> 0 <= skip q ->
  exists p db' l e e',
    post_pokemon db body = (db', Reply 201 (Doc p))
    /\ get_list_all db' = Reply 200 (Summaries (map summary (l ++ [p])))
    /\ l ≡ₚ db /\ StronglySorted (fun a b => id a <= id b) l
    /\ get_pokemon db q = Reply 200 (Page e)
    /\ get_pokemon db' q = Reply 200 (Page e')
    /\ Envelope.total e' = Envelope.total e + 1.
Proof.
  intros Hc Hs.
  destruct (CrudFacts.newId_spec db) as (n & Hn & Hmax).
  pose proof (CrudFacts.post_carries db body nm ty bs n Hc Hn) as Hpost.
  simpl in Hpost.
  set (p := {| id := n; name := nm; type := ty; base := bs;
               image := or_else (Payload.image body) (default_image n) |})
    in Hpost.
  assert (Hp : forall x, x ∈ db -> id x < id p).
  { intros x Hx. simpl.
    destruct Hmax as [[-> _] | (m & _ & Hle & ->)].
    - by apply elem_of_nil in Hx.
    - specialize (Hle x Hx). lia. }
  destruct (StoreFacts.sorted_snoc db p Hp) as (l & El & Hl & Hsorted).
  exists p, (db ++ [p]), l, (envelope q db), (envelope q (db ++ [p])).
  split; [done |]. split.
  - destruct QueryFacts.cast_all as (test & Hcast & Ht).
    unfold get_list_all. rewrite (QueryFacts.exec_sort _ _ _ test Hcast).
    rewrite (QueryFacts.filter_true _ _ Ht), El. done.
  - split; [done |]. split; [done |].
    rewrite !PagingFacts.get_pokemon_unfold.
    destruct (skip q <? 0) eqn:E; [apply Z.ltb_lt in E; lia |].
    repeat split. simpl. rewrite length_app. simpl. lia.
Qed.

Lemma created_comes_last_witness :
  exists p db' l e e',
    post_pokemon [squirtle; bulbasaur] (sample_payload None)
    = (db', Reply 201 (Doc p))
    /\ get_list_all db' = Reply 200 (Summaries (map summary (l ++ [p])))
    /\ l ≡ₚ [squirtle; bulbasaur]
    /\ StronglySorted (fun a b => id a <= id b) l
    /\ get_pokemon [squirtle; bulbasaur] second_page = Reply 200 (Page e)
    /\ get_pokemon db' second_page = Reply 200 (Page e')
    /\ Envelope.total e' = Envelope.total e + 1.
Proof.
  apply (created_comes_last [squirtle; bulbasaur] (sample_payload None)
           mew_name ["Psychic"] mew_base second_page).
  - repeat split.
  - vm_compute. discriminate.
Defined.

(** ** Search and batch lookup: parameters *)

Module LookupFacts.

(** Two tests that agree select the same records. *)
Lemma filter_agree (f g : Pokemon -> bool) (db : Store) :
  (forall p, f p = g p) -> List.filter f db = List.filter g db.
Proof.
  intros H. induction db as [|x db IH]; simpl; [done |].
  by rewrite H, IH.
Qed.

Lemma existsb_same_elements (l1 l2 : list number) (f : number -> bool) :
  (forall n, n ∈ l1 <-> n ∈ l2) -> existsb f l1 = existsb f l2.
Proof.
  intros H. apply eq_true_iff_eq. rewrite !existsb_exists.
  split; intros (n & Hn & Hf); exists n; (split; [| done]);
    by apply list_elem_of_In, H, list_elem_of_In.
Qed.

(** The answers of GET /pokemon/by-ids. *)
Lemma get_by_ids_cases (db : Store) (q : query) :
  get_by_ids db q = Reply 400 (Error ids_error)
  \/ exists test,
       get_by_ids db q
       = Reply 200 (Docs (merge_sort (Query.by_id Query.Asc)
                            (List.filter test db))).
Proof.
  destruct (q !! "ids") as [[|c ids]|] eqn:Hq.
  - left. unfold get_by_ids. by rewrite Hq.
  - right. destruct (IdsFacts.get_by_ids_some db q c ids Hq) as (test & _ & E).
    by exists test.
  - left. unfold get_by_ids. by rewrite Hq.
Qed.

Lemma ci_substring_fold t t' s :
  fold_case t = fold_case t' -> ci_substringb t s = ci_substringb t' s.
Proof.
  intros E. apply eq_true_iff_eq.
  rewrite !RegexFacts.ci_substringb_spec. unfold ci_substring.
  by setoid_rewrite E.
Qed.

End LookupFacts.

(** X10.  GET /pokemon/search answers 400 exactly when the [name]
    parameter is absent or empty. *)
Theorem search_requires_name (db : Store) (q : query) :
  status_of (get_search db q) = Some 400
  <-> q !! "name" = None \/ q !! "name" = Some "".
Proof.
  unfold get_search. cbv zeta.
  destruct (q !! "name") as [[|c term]|] eqn:Hq; simpl truthy; simpl negb;
    cbv iota.
  - split; [by right | done].
  - split; [| by intros [? | ?]].
    destruct (Query.exec db _) as [l | m |]; simpl; done.
  - split; [by left | done].
Qed.

(** X11.  The answer of GET /pokemon/by-ids depends only on the set of
    numbers its tokens denote: two non-empty [ids] values whose tokens
    give the same numbers, in any order and with any repetition, get the
    same answer. *)
Theorem by_ids_same_numbers (db : Store) (q q' : query) (a b : string) :
  q !! "ids" = Some a -> q' !! "ids" = Some b -> a <> "" -> b <> "" ->
  (forall n, n ∈ idList a <-> n ∈ idList b) ->
  get_by_ids db q = get_by_ids db q'.
Proof.
  intros Hq Hq' Ha Hb Hset.
  destruct a as [|c a]; [done |]. destruct b as [|d b]; [done |].
  destruct (IdsFacts.get_by_ids_some db q c a Hq) as (t & Ht & ->).
  destruct (IdsFacts.get_by_ids_some db q' d b Hq') as (t' & Ht' & ->).
  do 3 f_equal. apply LookupFacts.filter_agree. intros p.
  rewrite Ht, Ht'. by apply LookupFacts.existsb_same_elements.
Qed.

Lemma by_ids_same_numbers_witness :
  get_by_ids [pikachu; squirtle; bulbasaur] {[ "ids" := "1,25" ]}
  = get_by_ids [pikachu; squirtle; bulbasaur] {[ "ids" := "25,x,1,25" ]}.
Proof.
  apply (by_ids_same_numbers [pikachu; squirtle; bulbasaur]
           {[ "ids" := "1,25" ]} {[ "ids" := "25,x,1,25" ]}
           "1,25" "25,x,1,25"); try done.
  intros n.
  assert (E1 : idList "1,25" = [of_Z 1; of_Z 25]) by reflexivity.
  assert (E2 : idList "25,x,1,25" = [of_Z 25; of_Z 1; of_Z 25])
    by reflexivity.
  rewrite E1, E2, !elem_of_cons, !elem_of_nil. tauto.
Defined.

(** X12.  GET /pokemon/by-ids never repeats a record: a 200 answer holds
    each record at most as often as the store does, so with distinct
    records in the store the answer has no duplicate, however often an id
    is listed. *)
Theorem by_ids_no_repeat (db : Store) (q : query) (l : list Pokemon) :
  get_by_ids db q = Reply 200 (Docs l) ->
  l ⊆+ db /\ (NoDup db -> NoDup l).
Proof.
  intros H.
  destruct (LookupFacts.get_by_ids_cases db q) as [E | [test E]];
    rewrite E in H; [done |].
  injection H as <-. rewrite merge_sort_Permutation. split.
  - apply sublist_submseteq, RegexFacts.filter_sublist.
  - intros Hdup. apply (sublist_NoDup _ db Hdup), RegexFacts.filter_sublist.
Qed.

Lemma by_ids_no_repeat_witness :
  [bulbasaur; pikachu] ⊆+ [pikachu; squirtle; bulbasaur]
  /\ (NoDup [pikachu; squirtle; bulbasaur] -> NoDup [bulbasaur; pikachu]).
Proof.
  apply (by_ids_no_repeat [pikachu; squirtle; bulbasaur]
           {[ "ids" := "25,1,25,1" ]} [bulbasaur; pikachu]).
  reflexivity.
Defined.

(** X15.  The search does not tell letter case in the term: two terms
    free of pattern syntax that differ only in the case of their letters
    get the same answer. *)
Theorem search_term_case (db : Store) (q q' : query) (t t' : string) :
  q !! "name" = Some t -> q' !! "name" = Some t' ->
  literal_term t = true -> literal_term t' = true ->
  fold_case t = fold_case t' ->
  get_search db q = get_search db q'.
Proof.
  intros Hq Hq' Hl Hl' Hfold.
  destruct (RegexFacts.cast_search t Hl) as (f & Hc & Hf).
  destruct (RegexFacts.cast_search t' Hl') as (f' & Hc' & Hf').
  unfold get_search. cbv zeta. rewrite Hq, Hq'.
  destruct t as [|c t], t' as [|c' t']; try discriminate Hfold; [done |].
  simpl truthy. simpl negb. cbv iota. simpl default.
  rewrite (QueryFacts.exec_find db _ f Hc), (QueryFacts.exec_find db _ f' Hc').
  simpl. do 2 f_equal. apply LookupFacts.filter_agree. intros p.
  rewrite Hf, Hf'.
  by rewrite !(LookupFacts.ci_substring_fold _ _ _ Hfold).
Qed.

Lemma search_term_case_witness :
  get_search [bulbasaur; charmander] {[ "name" := "CHAR" ]}
  = get_search [bulbasaur; charmander] {[ "name" := "char" ]}.
Proof.
  by apply (search_term_case [bulbasaur; charmander]
              {[ "name" := "CHAR" ]} {[ "name" := "char" ]} "CHAR" "char").
Defined.

(** ** Lenient reading of [page] and [limit] *)

Module ParseFacts.
Import StrFacts NumFacts.

Lemma numeral_then m rest :
  digits_onto (Z.to_nat (Z.log2 m)) m rest = numeral m +:+ rest.
Proof. apply digits_onto_app. Qed.

Lemma read_stops rest acc c :
  stops_number rest = true -> Str.read_digits 10 acc c rest = (acc, c, rest).
Proof.
  destruct rest as [|d rest]; simpl; [done |].
  unfold Char.is_digit. intros [Hd _]%andb_true_iff.
  by destruct (Char.digit_in 10 d).
Qed.

Lemma numeral_read_then m rest :
  0 <= m -> stops_number rest = true ->
  exists k : nat,
    Str.read_digits 10 0 0 (numeral m +:+ rest) = (m, S k, rest).
Proof.
  intros Hm Hrest. rewrite <- numeral_then.
  destruct (read_digits_onto (Z.to_nat (Z.log2 m)) m rest 0 0)
    as (k & Hk & ->).
  { split; [done |]. rewrite Z2Nat.id by apply Z.log2_nonneg.
    destruct (Z.eq_dec m 0) as [-> | Hne]; [done |].
    replace (Z.log2 m + 1) with (Z.succ (Z.log2 m)) by lia.
    apply Z.log2_spec. lia. }
  destruct k; [lia |]. exists k. by rewrite read_stops.
Qed.

Lemma no_hex_prefix m rest :
  0 <= m -> stops_number rest = true ->
  Str.starts_with_ci "0" "x" (numeral m +:+ rest) = None.
Proof.
  intros Hm Hrest.
  destruct (numeral_cons m Hm) as (d & s & -> & Hd & Hs). simpl.
  destruct s as [|y s]; simpl.
  - destruct rest as [|c rest]; [done |]. simpl in Hrest.
    apply andb_true_iff in Hrest as [_ Hx]. apply negb_true_iff in Hx.
    by rewrite Hx, andb_false_r.
  - simpl in Hs. apply andb_true_iff in Hs as [Hy _].
    destruct (digit_facts y Hy) as (_&_&_&_&_&->&_).
    by rewrite andb_false_r.
Qed.

(** [parseInt] reads the integer in front and drops what follows it. *)
Lemma parseInt_prefix n rest :
  stops_number rest = true ->
  parseInt (Some (to_string n +:+ rest)) = Some n.
Proof.
  intros Hrest. rewrite to_string_unfold.
  assert (Hm : 0 <= Z.abs n) by lia.
  destruct (numeral_read_then (Z.abs n) rest Hm Hrest) as (k & Hr).
  pose proof (no_hex_prefix (Z.abs n) rest Hm Hrest) as Hx.
  unfold parseInt. destruct (n <? 0) eqn:Hneg.
  - simpl. change (read_sign (String "-" ?s)) with (-1, s).
    cbv beta iota. rewrite Hx, Hr. f_equal. apply Z.ltb_lt in Hneg. lia.
  - destruct (numeral_cons _ Hm) as (d & s & E & Hd & Hs).
    rewrite E in *. simpl String.append in *.
    destruct (digit_facts d Hd) as (Hsp & Hminus & Hplus & _).
    simpl Str.drop_while. rewrite Hsp.
    assert (Hsign : read_sign (String d (s +:+ rest)) = (1, String d (s +:+ rest))).
    { destruct d as [[] [] [] [] [] [] [] []]; done. }
    rewrite Hsign. cbv beta iota. rewrite Hx, Hr. f_equal.
    apply Z.ltb_ge in Hneg. lia.
Qed.

End ParseFacts.

(** X16.  [page] and [limit] are read leniently: a value that starts with
    the decimal form of a safe integer and goes on with anything but a
    digit or an [x] (as in [2abc] or [10.5]) resolves to that integer, or
    to the default when the integer is 0. *)
Theorem pagination_reads_prefix (q : query) (n : Z) (rest : string) :
  safe n -> stops_number rest = true ->
  (q !! "page" = Some (to_string n +:+ rest) ->
   page q = if n =? 0 then 1 else n)
  /\ (q !! "limit" = Some (to_string n +:+ rest) ->
      limit q = if n =? 0 then 20 else n).
Proof.
  intros _ Hrest. pose proof (ParseFacts.parseInt_prefix n rest Hrest) as Hp.
  unfold page, limit. split; intros ->; by rewrite Hp.
Qed.

Lemma pagination_reads_prefix_witness :
  page {[ "page" := "10.5" ]} = (if 10 =? 0 then 1 else 10).
Proof.
  apply (pagination_reads_prefix {[ "page" := "10.5" ]} 10 ".5").
  - split; reflexivity.
  - reflexivity.
  - reflexivity.
Defined.

(** ** Default images and the order of the store *)

Module OrderFacts.
Import StrFacts.

Lemma app_cancel_r (a b c : string) : a +:+ c = b +:+ c -> a = b.
Proof.
  intros E. apply (f_equal Str.rev) in E. rewrite !rev_app in E.
  apply (inj (String.app (Str.rev c))) in E.
  apply (f_equal Str.rev) in E. by rewrite !rev_involutive in E.
Qed.

Lemma to_string_inj n m : to_string n = to_string m -> n = m.
Proof.
  intros E. apply (f_equal (fun s => parseInt (Some s))) in E.
  rewrite !NumFacts.parseInt_to_string in E. by injection E.
Qed.

(** The URL template gives each id its own image. *)
Lemma default_image_inj n m : default_image n = default_image m -> n = m.
Proof.
  unfold default_image. intros E.
  apply (inj (String.app "http://localhost:3000/assets/pokemons/")) in E.
  by apply app_cancel_r, to_string_inj in E.
Qed.

Lemma filter_permutation (test : Pokemon -> bool) (l l' : Store) :
  l ≡ₚ l' -> List.filter test l ≡ₚ List.filter test l'.
Proof.
  induction 1 as [| x l l' _ IH | x y l | l l' l'' _ IH1 _ IH2]; simpl.
  - done.
  - destruct (test x); by rewrite IH.
  - destruct (test x), (test y); try done. apply perm_swap.
  - by etrans.
Qed.

Lemma same_id_same_record (l : Store) x y :
  NoDup (map id l) -> x ∈ l -> y ∈ l -> id x = id y -> x = y.
Proof.
  induction l as [|z l IH]; simpl; intros Hd Hx Hy E.
  - by apply elem_of_nil in Hx.
  - apply NoDup_cons in Hd as [Hz Hd].
    assert (Hin : forall w, w ∈ l -> id w ∈ map id l).
    { intros w Hw. by apply list_elem_of_In, in_map, list_elem_of_In. }
    apply elem_of_cons in Hx as [-> | Hx], Hy as [-> | Hy]; try done.
    + exfalso. apply Hz. rewrite E. by apply Hin.
    + exfalso. apply Hz. rewrite <- E. by apply Hin.
    + by apply IH.
Qed.

(** With distinct ids, sorting by id forgets the order of the store. *)
Lemma sorted_same (test : Pokemon -> bool) (db db' : Store) :
  db ≡ₚ db' -> NoDup (map id db) ->
  merge_sort (Query.by_id Query.Asc) (List.filter test db)
  = merge_sort (Query.by_id Query.Asc) (List.filter test db').
Proof.
  intros Hp Hd.
  apply (StronglySorted_unique_strong (Query.by_id Query.Asc)).
  - intros x y Hx Hy H1 H2. simpl in H1, H2.
    assert (Hin : forall (l : Store) z,
      z ∈ merge_sort (Query.by_id Query.Asc) (List.filter test l) -> z ∈ l).
    { intros l z Hz. apply QueryFacts.sorted_elem_of in Hz.
      apply list_elem_of_In, filter_In in Hz. apply list_elem_of_In, Hz. }
    apply (same_id_same_record db); [done | by apply Hin | | lia].
    rewrite Hp. by apply Hin.
  - apply QueryFacts.sorted_strongly.
  - apply QueryFacts.sorted_strongly.
  - rewrite !merge_sort_Permutation. by apply filter_permutation.
Qed.

Lemma filter_length_permutation (test : Pokemon -> bool) (db db' : Store) :
  db ≡ₚ db' -> length (List.filter test db) = length (List.filter test db').
Proof. intros H. by apply Permutation_length, filter_permutation. Qed.

End OrderFacts.

(** X17.  Records created without an image get an image of their own:
    when two creations that omit the image are answered 201 with the same
    image, the two records have the same id. *)
Theorem default_images_distinct
    (db1 db2 db1' db2' : Store) (b1 b2 : Payload.t) (p1 p2 : Pokemon) :
  Payload.image b1 = None -> Payload.image b2 = None ->
  post_pokemon db1 b1 = (db1', Reply 201 (Doc p1)) ->
  post_pokemon db2 b2 = (db2', Reply 201 (Doc p2)) ->
  image p1 = default_image (id p1)
  /\ image p2 = default_image (id p2)
  /\ (image p1 = image p2 -> id p1 = id p2).
Proof.
  assert (Himg : forall db b db' p,
    Payload.image b = None ->
    post_pokemon db b = (db', Reply 201 (Doc p)) ->
    image p = default_image (id p)).
  { intros db b db' p Hb. unfold post_pokemon, save.
    destruct (newId db) as [n | m |]; simpl; try done.
    destruct (validate _) as [r|] eqn:E; simpl; [| done].
    intros [= _ <-]. pose proof (CrudFacts.validate_id _ _ E) as Hid.
    simpl in Hid. rewrite Hid. unfold validate in E. rewrite Hb in E.
    simpl in E.
    repeat match type of E with
           | (mbind _ ?o) = Some _ =>
               let x := fresh in destruct o as [x|]; simpl in E; [| discriminate E]
           end.
    by injection E as <-. }
  intros H1 H2 P1 P2.
  pose proof (Himg _ _ _ _ H1 P1) as E1.
  pose proof (Himg _ _ _ _ H2 P2) as E2.
  split; [done |]. split; [done |].
  rewrite E1, E2. apply OrderFacts.default_image_inj.
Qed.


Lemma default_images_distinct_witness :
  image (mew 1) = default_image (id (mew 1))
  /\ image (mew 2) = default_image (id (mew 2))
  /\ (image (mew 1) = image (mew 2) -> id (mew 1) = id (mew 2)).
Proof.
  apply (default_images_distinct [] [bulbasaur] [mew 1] [bulbasaur; mew 2]
           (sample_payload None) (sample_payload None) (mew 1) (mew 2));
    reflexivity.
Defined.

(** X18.  With distinct ids in the store, the four handlers that sort do
    not depend on the natural order of the store: on two stores holding
    the same records in different orders, GET /pokemon, GET
    /pokemon/filter, GET /pokemon/by-ids and GET /pokemon/list-all give
    the same answers. *)
Theorem listings_forget_store_order (db db' : Store) (q : query) :
  db ≡ₚ db' -> NoDup (map id db) ->
  get_pokemon db q = get_pokemon db' q
  /\ get_filter db q = get_filter db' q
  /\ get_by_ids db q = get_by_ids db' q
  /\ get_list_all db = get_list_all db'.
Proof.
  intros Hp Hd.
  assert (Henv : forall test,
    envelope q (List.filter test db) = envelope q (List.filter test db')).
  { intros test. unfold envelope, slice.
    by rewrite (OrderFacts.sorted_same test db db' Hp Hd),
               (OrderFacts.filter_length_permutation test db db' Hp). }
  destruct QueryFacts.cast_all as (all & Hall & Htrue).
  pose proof (OrderFacts.sorted_same all db db' Hp Hd) as Hsame.
  rewrite !(QueryFacts.filter_true _ _ Htrue) in Hsame.
  split; [| split; [| split]].
  - rewrite !PagingFacts.get_pokemon_unfold.
    specialize (Henv all). rewrite !(QueryFacts.filter_true _ _ Htrue) in Henv.
    by rewrite Henv.
  - destruct (cast (Conj (build_filter q))) as [test | m |] eqn:Hc.
    + rewrite !(PagingFacts.get_filter_ok _ q test Hc). by rewrite Henv.
    + by rewrite !(PagingFacts.get_filter_throw _ q m Hc).
    + unfold get_filter, countDocuments. by rewrite Hc.
  - destruct (q !! "ids") as [[|c ids]|] eqn:Hq.
    + unfold get_by_ids. by rewrite Hq.
    + destruct (IdsFacts.get_by_ids_some db q c ids Hq) as (t & Ht & ->).
      destruct (IdsFacts.get_by_ids_some db' q c ids Hq) as (t' & Ht' & ->).
      rewrite (LookupFacts.filter_agree t' t db')
        by (intros p; by rewrite Ht, Ht').
      by rewrite (OrderFacts.sorted_same t db db' Hp Hd).
    + unfold get_by_ids. by rewrite Hq.
  - unfold get_list_all.
    rewrite !(QueryFacts.exec_sort _ _ _ all Hall).
    by rewrite !(QueryFacts.filter_true _ _ Htrue), Hsame.
Qed.

Lemma listings_forget_store_order_witness :
  get_pokemon [pikachu; bulbasaur; squirtle] second_page
  = get_pokemon [squirtle; pikachu; bulbasaur] second_page
  /\ get_filter [pikachu; bulbasaur; squirtle] second_page
     = get_filter [squirtle; pikachu; bulbasaur] second_page
  /\ get_by_ids [pikachu; bulbasaur; squirtle] second_page
     = get_by_ids [squirtle; pikachu; bulbasaur] second_page
  /\ get_list_all [pikachu; bulbasaur; squirtle]
     = get_list_all [squirtle; pikachu; bulbasaur].
Proof.
  apply (listings_forget_store_order [pikachu; bulbasaur; squirtle]
           [squirtle; pikachu; bulbasaur] second_page).
  - symmetry. apply (Permutation_cons_append [pikachu; bulbasaur] squirtle).
  - apply (bool_decide_unpack _). vm_compute. exact I.
Defined.
